(** * LiveSession: the real-time audio pipeline of the chat front-end

    A shallow embedding of the audio helpers ([encode], [decode],
    [decodeAudioData], [createBlob]) and of the session callbacks
    ([onopen], [onmessage], [onclose], [onerror], [startSession]) of the
    LiveSession component, with the properties of the uplink encoder, the
    downlink player and the session status.

    Numbers.  Audio samples are float32 values; the two operations applied
    to them ([s * 32768] on the way out, [v / 32768] on the way in) are
    exact in binary floating point, so finite samples are modelled by exact
    rationals ([Q]).  NaN and the infinities are not represented (the typed
    array conversion stores them as 0).  Times (the output clock, the
    playback cursor, buffer durations) are doubles in the program and exact
    rationals here: the rounding of their additions is not modelled.

    Platform.  [btoa], [atob], the typed-array constructors and
    [createBuffer] are browser functions; they are modelled after their
    standards (RFC 4648 and the forgiving-base64 decoder, the ECMAScript
    typed-array conversions on a little-endian host, Web Audio). *)

From Stdlib Require Import ZArith NArith QArith Qabs Qminmax Qround.
From Stdlib Require Import List String Ascii Strings.Byte Bool Lia ZifyNat Lqa.
From Stdlib Require Import Sorted.
Import ListNotations.

Local Open Scope nat_scope.

(** ** Exceptions and fallible computations *)

Inductive Exn : Type :=
| MediaAccessError (name : string)   (* rejection of getUserMedia *)
| ConnectionError (reason : string)  (* rejection of live.connect, onerror *)
| InvalidCharacterError              (* atob on text that is not base64 *)
| RangeError                         (* Int16Array over an odd byte length *)
| NotSupportedError.                 (* createBuffer with no frame *)

Inductive result (A : Type) : Type :=
| Ok (a : A)
| Throw (e : Exn).
Arguments Ok {A} a.
Arguments Throw {A} e.

Definition bind {A B} (r : result A) (k : A -> result B) : result B :=
  match r with
  | Ok a => k a
  | Throw e => Throw e
  end.

Notation "'let*' x ':=' r 'in' k" := (bind r (fun x => k))
  (at level 10, x name, r at level 100, k at level 200).

(** ** Loops over typed arrays *)

(** [for (let i = 0; i < n; i++) body], as a fold over the indices. *)
Definition for_loop {S : Type} (n : nat) (body : nat -> S -> S) (s : S) : S :=
  fold_left (fun acc i => body i acc) (seq 0 n) s.

(** [a[i] = v] on a typed array: a write past the end is dropped. *)
Fixpoint store {A : Type} (i : nat) (v : A) (a : list A) : list A :=
  match a, i with
  | [], _ => []
  | _ :: r, O => v :: r
  | x :: r, S j => x :: store j v r
  end.

(** ** Base64 text (the platform's [btoa] and [atob]) *)

Module Base64.

Definition alphabet : string :=
  "ABCDEFGHIJKLMNOPQRSTUVWXYZabcdefghijklmnopqrstuvwxyz0123456789+/".

Definition pad : ascii := "="%char.

(** The character of a sextet. *)
Definition digit (n : N) : ascii :=
  match String.get (N.to_nat n) alphabet with
  | Some c => c
  | None => pad
  end.

Definition between (lo hi n : N) : bool := ((lo <=? n) && (n <=? hi))%N.

(** The sextet of a character, if it is in the alphabet. *)
Definition value (c : ascii) : option N :=
  let n := N_of_ascii c in
  if between 65 90 n then Some (n - 65)%N
  else if between 97 122 n then Some (n - 97 + 26)%N
  else if between 48 57 n then Some (n - 48 + 52)%N
  else if (n =? 43)%N then Some 62%N
  else if (n =? 47)%N then Some 63%N
  else None.

(** RFC 4648, section 4: three octets give four sextets; one or two
    remaining octets give two or three sextets and padding. *)
Fixpoint btoa_chars (l : list N) : list ascii :=
  match l with
  | [] => []
  | [a] => [digit (a / 4); digit (a mod 4 * 16); pad; pad]
  | [a; b] =>
      [digit (a / 4); digit (a mod 4 * 16 + b / 16); digit (b mod 16 * 4); pad]
  | a :: b :: c :: r =>
      digit (a / 4) :: digit (a mod 4 * 16 + b / 16)
      :: digit (b mod 16 * 4 + c / 64) :: digit (c mod 64) :: btoa_chars r
  end%N.

(** [btoa] of a binary string (every code unit below 256, as [ascii] has
    it). *)
Definition btoa (binary : string) : string :=
  string_of_list_ascii
    (btoa_chars (List.map N_of_ascii (list_ascii_of_string binary))).

(** TAB, LF, FF, CR and SPACE. *)
Definition is_ascii_whitespace (c : ascii) : bool :=
  let n := N_of_ascii c in
  ((n =? 9) || (n =? 10) || (n =? 12) || (n =? 13) || (n =? 32))%N.

Definition is_pad_tail (l : list ascii) : bool :=
  match l with
  | [c] => Ascii.eqb c pad
  | [c; d] => Ascii.eqb c pad && Ascii.eqb d pad
  | _ => false
  end.

(** Removes the one or two [=] that end the text. *)
Fixpoint strip_tail (l : list ascii) : list ascii :=
  match l with
  | [] => []
  | c :: r => if is_pad_tail l then [] else c :: strip_tail r
  end.

Definition strip_padding (l : list ascii) : list ascii :=
  if Nat.eqb (List.length l mod 4) 0 then strip_tail l else l.

Fixpoint values (l : list ascii) : option (list N) :=
  match l with
  | [] => Some []
  | c :: r =>
      match value c, values r with
      | Some n, Some ns => Some (n :: ns)
      | _, _ => None
      end
  end.

(** Four sextets give three octets; two or three remaining sextets give one
    or two octets, the bits left over being dropped. *)
Fixpoint atob_octets (l : list N) : list N :=
  match l with
  | s1 :: s2 :: s3 :: s4 :: r =>
      (s1 * 4 + s2 / 16) :: (s2 mod 16 * 16 + s3 / 4)
      :: (s3 mod 4 * 64 + s4) :: atob_octets r
  | [s1; s2; s3] => [s1 * 4 + s2 / 16; s2 mod 16 * 16 + s3 / 4]
  | [s1; s2] => [s1 * 4 + s2 / 16]
  | _ => []
  end%N.

(** The forgiving-base64 decoder behind [atob]; [None] is the
    InvalidCharacterError.  Code units above 255 are not represented: [atob]
    refuses them as it refuses any character outside the alphabet. *)
Definition atob (base64 : string) : option string :=
  let l := List.filter (fun c => negb (is_ascii_whitespace c))
             (list_ascii_of_string base64) in
  let l := strip_padding l in
  if Nat.eqb (List.length l mod 4) 1 then None
  else
    match values l with
    | None => None
    | Some ss => Some (string_of_list_ascii (List.map ascii_of_N (atob_octets ss)))
    end.

End Base64.

(** ** The audio helpers of the component *)

Definition Uint8Array := list byte.
Definition Int16Array := list Z.
Definition Float32Array := list Q.

Definition fromCharCode (b : byte) : ascii := ascii_of_byte b.
Definition charCodeAt (c : ascii) : byte := byte_of_ascii c.

(** [encode]: the bytes are appended one by one to a binary string, which
    [btoa] turns into text. *)
Definition encode (bytes : Uint8Array) : string :=
  let len := List.length bytes in
  let binary :=
    for_loop len
      (fun i binary =>
         (binary ++ String (fromCharCode (nth i bytes x00)) EmptyString)%string)
      EmptyString in
  Base64.btoa binary.

(** [decode]: [atob], then one byte per code unit of the binary string. *)
Definition decode (base64 : string) : result Uint8Array :=
  match Base64.atob base64 with
  | None => Throw InvalidCharacterError
  | Some binaryString =>
      let len := String.length binaryString in
      let bytes := repeat x00 len in
      Ok (for_loop len
            (fun i bytes =>
               match String.get i binaryString with
               | Some c => store i (charCodeAt c) bytes
               | None => bytes
               end)
            bytes)
  end.

Definition SAMPLE_RATE_IN : positive := 16000.
Definition SAMPLE_RATE_OUT : positive := 24000.

(** *** Typed-array conversions *)

(** The integer part of a number, towards zero. *)
Definition truncate (x : Q) : Z := Z.quot (Qnum x) (Zpos (Qden x)).

(** ECMAScript ToInt16, applied by a store into an [Int16Array]: truncate,
    reduce modulo 2^16, read the result as a signed 16-bit integer. *)
Definition ToInt16 (x : Q) : Z :=
  let int16bit := ((truncate x) mod 65536)%Z in
  if (32768 <=? int16bit)%Z then (int16bit - 65536)%Z else int16bit.

Definition byte_of_Z (z : Z) : byte :=
  match Byte.of_N (Z.to_N (z mod 256)) with
  | Some b => b
  | None => x00
  end.

Definition Z_of_byte (b : byte) : Z := Z.of_N (Byte.to_N b).

(** [new Uint8Array(int16.buffer)]: the two bytes of each element, the low
    byte first. *)
Definition Uint8Array_of_buffer (int16 : Int16Array) : Uint8Array :=
  flat_map
    (fun v => let u := (v mod 65536)%Z in
              [byte_of_Z (u mod 256); byte_of_Z (u / 256)])
    int16.

Fixpoint int16_elements (buffer : Uint8Array) : Int16Array :=
  match buffer with
  | lo :: hi :: r =>
      let u := (Z_of_byte lo + 256 * Z_of_byte hi)%Z in
      (if (32768 <=? u)%Z then (u - 65536)%Z else u) :: int16_elements r
  | _ => []
  end.

(** [new Int16Array(data.buffer)]: a RangeError unless the byte length is a
    multiple of 2. *)
Definition new_Int16Array (buffer : Uint8Array) : result Int16Array :=
  if Nat.even (List.length buffer) then Ok (int16_elements buffer)
  else Throw RangeError.

(** *** Audio buffers *)

Record AudioBuffer : Type := mkAudioBuffer {
  numberOfChannels : nat;
  sampleRate : positive;
  channelData : Float32Array   (* channel 0 *)
}.

Definition frames (b : AudioBuffer) : nat := List.length (channelData b).

(** [buffer.duration], in seconds. *)
Definition duration (b : AudioBuffer) : Q := Z.of_nat (frames b) # sampleRate b.

(** [ctx.createBuffer]: silence of the asked length; a buffer of no frame
    is refused (NotSupportedError).  The context is left out here and in
    [decodeAudioData]: the buffer does not depend on it. *)
Definition createBuffer (channels length : nat) (rate : positive)
  : result AudioBuffer :=
  if Nat.eqb length 0 then Throw NotSupportedError
  else Ok (mkAudioBuffer channels rate (repeat 0%Q length)).

Definition decodeAudioData (data : Uint8Array) : result AudioBuffer :=
  let* dataInt16 := new_Int16Array data in
  let frameCount := List.length dataInt16 in
  let* buffer := createBuffer 1 frameCount SAMPLE_RATE_OUT in
  Ok (mkAudioBuffer (numberOfChannels buffer) (sampleRate buffer)
        (for_loop frameCount
           (fun i channelData =>
              store i (inject_Z (nth i dataInt16 0%Z) / 32768)%Q channelData)
           (channelData buffer))).

Record Blob : Type := mkBlob {
  data : string;
  mimeType : string
}.

(** The local [int16] of [createBlob], after its loop. *)
Definition createBlob_int16 (data : Float32Array) : Int16Array :=
  let l := List.length data in
  for_loop l
    (fun i int16 => store i (ToInt16 (nth i data 0%Q * 32768)%Q) int16)
    (repeat 0%Z l).

Definition createBlob (data : Float32Array) : Blob :=
  let int16 := createBlob_int16 data in
  mkBlob (encode (Uint8Array_of_buffer int16)) "audio/pcm;rate=16000".

(** ** The session *)

Inductive Status : Type := connecting | connected | error | disconnected.

(** *** Messages of the remote session *)

Record InlineData : Type := mkInlineData {
  inline_data : option string;
  inline_mimeType : option string
}.

Record Part : Type := mkPart {
  inlineData : option InlineData;
  text : option string
}.

Record Content : Type := mkContent {
  parts : option (list Part)
}.

Record ServerContent : Type := mkServerContent {
  modelTurn : option Content;
  turnComplete : bool
}.

Record LiveServerMessage : Type := mkMessage {
  serverContent : option ServerContent
}.

Definition and_then {A B} (o : option A) (f : A -> option B) : option B :=
  match o with
  | Some a => f a
  | None => None
  end.

(** [msg.serverContent?.modelTurn?.parts?.[0]?.inlineData?.data] *)
Definition base64Audio (msg : LiveServerMessage) : option string :=
  and_then (serverContent msg) (fun sc =>
  and_then (modelTurn sc) (fun turn =>
  and_then (parts turn) (fun ps =>
  and_then (nth_error ps 0) (fun part =>
  and_then (inlineData part) inline_data)))).

(** A string is truthy unless it is empty. *)
Definition truthy (s : string) : bool :=
  match s with
  | EmptyString => false
  | String _ _ => true
  end.

(** *** State of the component *)

Record AudioContext : Type := mkAudioContext {
  contextRate : positive
}.

(** The promise returned by [ai.live.connect]: while it is pending, the
    media of the [then] callbacks waiting for the session, oldest first. *)
Inductive SessionPromise : Type :=
| NotCreated
| Pending (waiting : list Blob)
| Fulfilled
| Rejected.

(** Where the asynchronous body of [startSession] stands. *)
Inductive Progress : Type :=
| NotStarted
| AwaitingMedia      (* at [await getUserMedia] *)
| AwaitingSession    (* at [await sessionPromise] *)
| Finished.

(** The [cleanup] variable of the effect: the empty function it starts as,
    or the function that [startSession] puts in its place. *)
Inductive Cleanup : Type :=
| cleanup_empty
| cleanup_release.

Record LiveSession : Type := mkLiveSession {
  status : Status;
  logs : list string;
  inputAudioContextRef : option AudioContext;
  outputAudioContextRef : option AudioContext;
  nextStartTimeRef : Q;
  sessionRef : bool;            (* the active session has been stored *)
  progress : Progress;
  sessionPromise : SessionPromise;
  onaudioprocess : bool;        (* the script processor is wired *)
  interval : bool;              (* the video timer runs *)
  cleanup : Cleanup
}.

(** What the component does to the outside. *)
Inductive Action : Type :=
| sendRealtimeInput (media : Blob)
| start (buffer : AudioBuffer) (when : Q)     (* [source.start(when)] *)
| drawVisualizer (samples : Float32Array)
| console_error (message : string) (e : Exn).

(** The component as mounted: [useState('connecting')], refs at their
    initial values, [let cleanup = () => {}]. *)
Definition mounted : LiveSession :=
  mkLiveSession connecting [] None None 0 false NotStarted NotCreated false false
    cleanup_empty.

Definition setStatus (s : Status) (st : LiveSession) : LiveSession :=
  mkLiveSession s (logs st) (inputAudioContextRef st)
    (outputAudioContextRef st) (nextStartTimeRef st) (sessionRef st)
    (progress st) (sessionPromise st) (onaudioprocess st) (interval st)
    (cleanup st).

Definition setLogs (f : list string -> list string) (st : LiveSession)
  : LiveSession :=
  mkLiveSession (status st) (f (logs st)) (inputAudioContextRef st)
    (outputAudioContextRef st) (nextStartTimeRef st) (sessionRef st)
    (progress st) (sessionPromise st) (onaudioprocess st) (interval st)
    (cleanup st).

Definition set_nextStartTime (t : Q) (st : LiveSession) : LiveSession :=
  mkLiveSession (status st) (logs st) (inputAudioContextRef st)
    (outputAudioContextRef st) t (sessionRef st)
    (progress st) (sessionPromise st) (onaudioprocess st) (interval st)
    (cleanup st).

Definition set_progress (p : Progress) (st : LiveSession) : LiveSession :=
  mkLiveSession (status st) (logs st) (inputAudioContextRef st)
    (outputAudioContextRef st) (nextStartTimeRef st) (sessionRef st)
    p (sessionPromise st) (onaudioprocess st) (interval st)
    (cleanup st).

Definition set_sessionPromise (p : SessionPromise) (st : LiveSession)
  : LiveSession :=
  mkLiveSession (status st) (logs st) (inputAudioContextRef st)
    (outputAudioContextRef st) (nextStartTimeRef st) (sessionRef st)
    (progress st) p (onaudioprocess st) (interval st)
    (cleanup st).

(** *** The callbacks given to [ai.live.connect] *)

Definition onopen (st : LiveSession) : LiveSession :=
  let st := setStatus connected st in
  let st := setLogs (fun prev => prev ++ ["Connected to Live Uplink."%string]) st in
  mkLiveSession (status st) (logs st) (inputAudioContextRef st)
    (outputAudioContextRef st) (nextStartTimeRef st) (sessionRef st)
    (progress st) (sessionPromise st) true (interval st) (cleanup st).

(** [onmessage], with the reading of [ctx.currentTime] it makes.  The
    handler is asynchronous but awaits only a settled promise, so it runs to
    its end before the next message is delivered; a [Throw] is the rejection
    of the promise it returns, which nothing observes. *)
Definition onmessage (st : LiveSession) (msg : LiveServerMessage)
    (currentTime : Q) : LiveSession * list Action * result unit :=
  match base64Audio msg, outputAudioContextRef st with
  | Some base64Audio, Some ctx =>
      if truthy base64Audio then
        let st := set_nextStartTime (Qmax (nextStartTimeRef st) currentTime) st in
        match (let* bytes := decode base64Audio in decodeAudioData bytes) with
        | Throw e => (st, [], Throw e)
        | Ok audioBuffer =>
            (set_nextStartTime (nextStartTimeRef st + duration audioBuffer)%Q st,
             [start audioBuffer (nextStartTimeRef st)],
             Ok tt)
        end
      else (st, [], Ok tt)
  | _, _ => (st, [], Ok tt)
  end.

Definition onclose (st : LiveSession) : LiveSession :=
  setStatus disconnected st.

Definition onerror (err : Exn) (st : LiveSession) : LiveSession * list Action :=
  (setStatus error st, [console_error EmptyString err]).

(** [sessionPromise.then(session => session.sendRealtimeInput({ media }))] *)
Definition then_send (media : Blob) (st : LiveSession)
  : LiveSession * list Action :=
  match sessionPromise st with
  | Pending waiting => (set_sessionPromise (Pending (waiting ++ [media])) st, [])
  | Fulfilled => (st, [sendRealtimeInput media])
  | NotCreated | Rejected => (st, [])
  end.

(** The handler of [onaudioprocess].  The callback given to [then] runs
    once the handler has returned, so the drawing comes before the
    sending. *)
Definition scriptProcessor_onaudioprocess (inputData : Float32Array)
    (st : LiveSession) : LiveSession * list Action :=
  let pcmBlob := createBlob inputData in
  let '(st, sent) := then_send pcmBlob st in
  (st, drawVisualizer inputData :: sent).

(** The callback of [setInterval]; [snapshot] is the JPEG of the frame in
    base64 when the video, the canvas and its context are there. *)
Definition interval_callback (snapshot : option string) (st : LiveSession)
  : LiveSession * list Action :=
  match snapshot with
  | Some base64 => then_send (mkBlob base64 "image/jpeg") st
  | None => (st, [])
  end.

(** *** [startSession], cut at its two [await]s *)

(** The [catch] of [startSession]. *)
Definition startSession_catch (e : Exn) (st : LiveSession)
  : LiveSession * list Action :=
  (set_progress Finished (setStatus error st),
   [console_error "Live session failed" e]).

(** Up to [await getUserMedia]: the two audio contexts are created. *)
Definition startSession (st : LiveSession) : LiveSession :=
  mkLiveSession (status st) (logs st)
    (Some (mkAudioContext SAMPLE_RATE_IN))
    (Some (mkAudioContext SAMPLE_RATE_OUT))
    (nextStartTimeRef st) (sessionRef st)
    AwaitingMedia (sessionPromise st) (onaudioprocess st) (interval st)
    (cleanup st).

(** From the outcome of [getUserMedia] to [await sessionPromise]: on
    success [ai.live.connect] is called and the callbacks are registered. *)
Definition startSession_media (outcome : result unit) (st : LiveSession)
  : LiveSession * list Action :=
  match outcome with
  | Throw e => startSession_catch e st
  | Ok _ => (set_progress AwaitingSession (set_sessionPromise (Pending []) st), [])
  end.

(** From the outcome of [sessionPromise] to the end: the session is stored,
    the video timer is set and [cleanup] is replaced; the [then] callbacks
    that waited run in the order they were added. *)
Definition startSession_session (outcome : result unit) (st : LiveSession)
  : LiveSession * list Action :=
  match outcome with
  | Throw e => startSession_catch e (set_sessionPromise Rejected st)
  | Ok _ =>
      let waiting :=
        match sessionPromise st with
        | Pending waiting => waiting
        | _ => []
        end in
      (mkLiveSession (status st) (logs st) (inputAudioContextRef st)
         (outputAudioContextRef st) (nextStartTimeRef st) true
         Finished Fulfilled (onaudioprocess st) true cleanup_release,
       List.map sendRealtimeInput waiting)
  end.

(** *** Events *)

(** What the browser and the remote client deliver to the component. *)
Inductive Event : Type :=
| Mount                                     (* the effect runs [startSession] *)
| MediaGranted                              (* [getUserMedia] resolves *)
| MediaDenied (name : string)               (* [getUserMedia] rejects *)
| SessionResolved                           (* [sessionPromise] resolves *)
| SessionRejected (reason : string)         (* [sessionPromise] rejects *)
| Open
| Message (msg : LiveServerMessage) (currentTime : Q)
| Close
| Error (err : Exn)
| AudioProcess (inputData : Float32Array)
| Tick (snapshot : option string).

(** The callbacks exist once [ai.live.connect] has been called. *)
Definition callbacks_registered (st : LiveSession) : bool :=
  match sessionPromise st with
  | NotCreated => false
  | _ => true
  end.

(** One event: the handler that is registered for it runs; an event no
    handler waits for changes nothing.  The model is of one run of the
    effect: [Mount] starts it, and a [Mount] of a component already started
    (the effect run again on a change of [personality], which starts
    another session beside the first) is not modelled; the properties of
    sequences of events are stated for sequences without it. *)
Definition step (st : LiveSession) (ev : Event) : LiveSession * list Action :=
  match ev with
  | Mount =>
      match progress st with
      | NotStarted => (startSession st, [])
      | _ => (st, [])
      end
  | MediaGranted =>
      match progress st with
      | AwaitingMedia => startSession_media (Ok tt) st
      | _ => (st, [])
      end
  | MediaDenied name =>
      match progress st with
      | AwaitingMedia => startSession_media (Throw (MediaAccessError name)) st
      | _ => (st, [])
      end
  | SessionResolved =>
      match progress st with
      | AwaitingSession => startSession_session (Ok tt) st
      | _ => (st, [])
      end
  | SessionRejected reason =>
      match progress st with
      | AwaitingSession => startSession_session (Throw (ConnectionError reason)) st
      | _ => (st, [])
      end
  | Open => if callbacks_registered st then (onopen st, []) else (st, [])
  | Message msg currentTime =>
      if callbacks_registered st then fst (onmessage st msg currentTime)
      else (st, [])
  | Close => if callbacks_registered st then (onclose st, []) else (st, [])
  | Error err => if callbacks_registered st then onerror err st else (st, [])
  | AudioProcess inputData =>
      if onaudioprocess st then scriptProcessor_onaudioprocess inputData st
      else (st, [])
  | Tick snapshot =>
      if interval st then interval_callback snapshot st else (st, [])
  end.

(** A sequence of events, with everything the component did. *)
Fixpoint run (st : LiveSession) (evs : list Event) : LiveSession * list Action :=
  match evs with
  | [] => (st, [])
  | ev :: rest =>
      let '(st1, done1) := step st ev in
      let '(st2, done2) := run st1 rest in
      (st2, done1 ++ done2)
  end.

(** The status after each event of a sequence. *)
Fixpoint statuses (st : LiveSession) (evs : list Event) : list Status :=
  match evs with
  | [] => []
  | ev :: rest => status (fst (step st ev)) :: statuses (fst (step st ev)) rest
  end.

(** *** Delivery of messages to [onmessage] *)

(** Messages handed to [onmessage] one after the other, each with the
    reading of the output clock made while it is handled. *)
Fixpoint deliver (st : LiveSession) (chunks : list (LiveServerMessage * Q))
  : LiveSession * list Action :=
  match chunks with
  | [] => (st, [])
  | (msg, currentTime) :: rest =>
      let '(st1, done1, _) := onmessage st msg currentTime in
      let '(st2, done2) := deliver st1 rest in
      (st2, done1 ++ done2)
  end.

(** The buffers given to [source.start], with their start times, in the
    order of the calls. *)
Definition scheduled (done : list Action) : list (AudioBuffer * Q) :=
  flat_map
    (fun a => match a with
              | start buffer when => [(buffer, when)]
              | _ => []
              end)
    done.

(** A message whose first part carries [base64] as inline audio. *)
Definition audio_message (base64 : string) : LiveServerMessage :=
  mkMessage
    (Some (mkServerContent
             (Some (mkContent
                      (Some [mkPart
                               (Some (mkInlineData (Some base64)
                                        (Some "audio/pcm;rate=24000"%string)))
                               None])))
             false)).

(** The uplink encoding of a block followed by the downlink decoding. *)
Definition roundtrip (block : Float32Array) : result AudioBuffer :=
  let* bytes := decode (data (createBlob block)) in
  decodeAudioData bytes.

(** ** Auxiliary predicates *)

Definition no_whitespace (cs : list ascii) : Prop :=
  Forall (fun c => Base64.is_ascii_whitespace c = false) cs.

(** What [atob] finds in the text [btoa] wrote for the octets [l]. *)
Definition readable (l : list N) (cs : list ascii) : Prop :=
  no_whitespace cs
  /\ List.length cs mod 4 = 0
  /\ exists ss,
       Base64.strip_tail cs = List.map Base64.digit ss
       /\ Forall (fun s => (s < 64)%N) ss
       /\ List.length ss mod 4 <> 1
       /\ Base64.atob_octets ss = l.

(** When a scheduled buffer ends. *)
Definition ends (e : AudioBuffer * Q) : Q := (snd e + duration (fst e))%Q.

(** [b] starts no earlier than [a] ends. *)
Definition no_overlap (a b : AudioBuffer * Q) : Prop := (ends a <= snd b)%Q.

Definition starts_in_order (a b : AudioBuffer * Q) : Prop := (snd a <= snd b)%Q.

(** [b] starts exactly when [a] ends. *)
Definition abuts (a b : AudioBuffer * Q) : Prop := (snd b == ends a)%Q.

Definition starts_at (c : Q) (l : list (AudioBuffer * Q)) : Prop :=
  match l with
  | [] => True
  | e :: _ => (snd e == c)%Q
  end.

(** Every message arrives while the output clock has not passed the
    playback cursor. *)
Fixpoint burst (st : LiveSession) (chunks : list (LiveServerMessage * Q))
  : Prop :=
  match chunks with
  | [] => True
  | (msg, currentTime) :: rest =>
      (currentTime <= nextStartTimeRef st)%Q
      /\ burst (fst (fst (onmessage st msg currentTime))) rest
  end.

(** A sample of the nominal range of the capture, and one that the 16-bit
    conversion does not wrap. *)
Definition normalized (s : Q) : Prop := (-1 <= s /\ s <= 1)%Q.
Definition below_full_scale (s : Q) : Prop := (-1 <= s /\ s < 1)%Q.

Definition close (s r : Q) : Prop := (Qabs (s - r) <= 1 # 32768)%Q.

(** Rounding to the nearest integer, halves upwards ([Math.round]): the
    conversion the specification words name, for comparison with
    [ToInt16]. *)
Definition spec_round (x : Q) : Z := Qfloor (x + (1 # 2))%Q.

(** The transitions of the status the specification lists. *)
Definition listed (s s' : Status) : Prop :=
  match s, s' with
  | connecting, connected | connecting, error => True
  | connected, disconnected | connected, error => True
  | _, _ => False
  end.

(** Every change of status along [l], starting from [s], is listed. *)
Fixpoint only_listed (s : Status) (l : list Status) : Prop :=
  match l with
  | [] => True
  | s' :: rest => (s' = s \/ listed s s') /\ only_listed s' rest
  end.

(** The status a lifecycle event asks for. *)
Definition target (ev : Event) : option Status :=
  match ev with
  | Open => Some connected
  | Close => Some disconnected
  | Error _ | MediaDenied _ | SessionRejected _ => Some error
  | _ => None
  end.

(** The order in which the remote client is expected to call back: open
    while connecting, close while connected, an error or a startup failure
    before any of them has ended the session. *)
Definition in_order (s : Status) (ev : Event) : Prop :=
  match ev with
  | Open => s = connecting
  | Close => s = connected
  | Error _ | MediaDenied _ | SessionRejected _ => s = connecting \/ s = connected
  | _ => True
  end.

Fixpoint orderly (st : LiveSession) (evs : list Event) : Prop :=
  match evs with
  | [] => True
  | ev :: rest => in_order (status st) ev /\ orderly (fst (step st ev)) rest
  end.

(** The three ways [onmessage] ends. *)
Inductive Handled (st : LiveSession) (msg : LiveServerMessage) (t : Q)
  : LiveSession * list Action * result unit -> Prop :=
| handled_ignored :
    (base64Audio msg = None
     \/ base64Audio msg = Some EmptyString
     \/ outputAudioContextRef st = None) ->
    Handled st msg t (st, [], Ok tt)
| handled_failed base64 e :
    base64Audio msg = Some base64 ->
    truthy base64 = true ->
    outputAudioContextRef st <> None ->
    (let* bytes := decode base64 in decodeAudioData bytes) = Throw e ->
    Handled st msg t
      (set_nextStartTime (Qmax (nextStartTimeRef st) t) st, [], Throw e)
| handled_scheduled base64 bytes buffer :
    base64Audio msg = Some base64 ->
    truthy base64 = true ->
    outputAudioContextRef st <> None ->
    decode base64 = Ok bytes ->
    decodeAudioData bytes = Ok buffer ->
    Handled st msg t
      (set_nextStartTime
         (Qmax (nextStartTimeRef st) t + duration buffer)%Q st,
       [start buffer (Qmax (nextStartTimeRef st) t)],
       Ok tt).

(** ** The visualizer *)

(** Coordinates are doubles in the program and exact rationals here, as
    times are. *)
Module Visualizer.

(** The canvas of the footer: its size in pixels, and whether
    [getContext('2d')] gives a context. *)
Record Canvas : Type := mkCanvas {
  width : Z;
  height : Z;
  context2d : bool
}.

(** What is asked of the drawing context, in the order of the calls. *)
Inductive Drawing : Type :=
| clearRect (x y w h : Q)
| lineWidth (w : Q)
| strokeStyle (colour : string)
| beginPath
| moveTo (x y : Q)
| lineTo (x y : Q)
| stroke.

(** The height at which the sample of index [i] is drawn. *)
Definition ordinate (data : Float32Array) (height : Q) (i : nat) : Q :=
  let v := (nth i data 0 * 5)%Q in
  (height / 2 + v * height / 2)%Q.

(** [for (let i = 0; i < data.length; i += 10)] from the index [i] and the
    abscissa [x] on; [fuel] bounds the number of turns. *)
Fixpoint plot (fuel : nat) (data : Float32Array) (height sliceWidth : Q)
    (i : nat) (x : Q) : list Drawing :=
  match fuel with
  | O => []
  | S fuel' =>
      if Nat.ltb i (List.length data) then
        let y := ordinate data height i in
        (if Nat.eqb i 0 then moveTo x y else lineTo x y)
        :: plot fuel' data height sliceWidth (i + 10) (x + sliceWidth * 10)%Q
      else []
  end.

(** [drawVisualizer]; the loop is given as many turns as there are
    samples, more than it takes.  For an empty block the division of
    [sliceWidth] is by zero, and its result is not used. *)
Definition drawVisualizer (visualizerCanvasRef : option Canvas)
    (data : Float32Array) : list Drawing :=
  match visualizerCanvasRef with
  | None => []
  | Some canvas =>
      if context2d canvas then
        let width := inject_Z (width canvas) in
        let height := inject_Z (height canvas) in
        let sliceWidth := (width / inject_Z (Z.of_nat (List.length data)))%Q in
        [clearRect 0 0 width height; lineWidth 2; strokeStyle "#00ffcc";
         beginPath]
        ++ plot (List.length data) data height sliceWidth 0 0%Q
        ++ [stroke]
      else []
  end.

(** The points of the line, in the order they are joined. *)
Definition points (drawing : list Drawing) : list (Q * Q) :=
  flat_map
    (fun d => match d with
              | moveTo x y | lineTo x y => [(x, y)]
              | _ => []
              end)
    drawing.

(** The turns the loop takes from the index [i]. *)
Definition turns (n i : nat) : nat := (n - i + 9) / 10.

End Visualizer.

(** ** Data URLs *)

(** [String.prototype.split] for a separator of one character: the pieces
    between the occurrences of the separator, one more than there are
    occurrences. *)
Fixpoint split_list (sep : ascii) (l : list ascii) : list (list ascii) :=
  match l with
  | [] => [[]]
  | c :: r =>
      if Ascii.eqb c sep then [] :: split_list sep r
      else
        match split_list sep r with
        | piece :: pieces => (c :: piece) :: pieces
        | [] => [[c]]
        end
  end.

Definition split (sep : ascii) (s : string) : list string :=
  List.map string_of_list_ascii (split_list sep (list_ascii_of_string s)).

(** [url.split(',')[1]], by which the timer callback takes the base64 text
    out of [canvas.toDataURL(...)] (and the file reader's result is
    stripped of its prefix); [None] is [undefined]. *)
Definition dataURL_payload (url : string) : option string :=
  nth_error (split ","%char url) 1.

(** The data URL of bytes: a header and their base64 text. *)
Definition dataURL (header : string) (bytes : Uint8Array) : string :=
  (header ++ String ","%char (encode bytes))%string.

Definition no_comma (s : string) : Prop :=
  ~ In ","%char (list_ascii_of_string s).

(** ** Further predicates *)

(** A character [btoa] may write. *)
Definition base64_char (c : ascii) : Prop :=
  Base64.value c <> None \/ c = Base64.pad.

(** A character [atob] refuses. *)
Definition foreign_char (c : ascii) : Prop :=
  Base64.value c = None
  /\ Base64.is_ascii_whitespace c = false
  /\ c <> Base64.pad.

(** The sample a 16-bit conversion and the division by 32768 make of
    [s]. *)
Definition quantized (s : Q) : Q := (inject_Z (ToInt16 (s * 32768)) / 32768)%Q.

(** The buffer [decodeAudioData] makes of a well-formed payload. *)
Definition decoded (pcm : Uint8Array) : AudioBuffer :=
  mkAudioBuffer 1 SAMPLE_RATE_OUT
    (List.map (fun v => (inject_Z v / 32768)%Q) (int16_elements pcm)).

Definition well_formed (pcm : Uint8Array) : Prop :=
  pcm <> [] /\ Nat.even (List.length pcm) = true.


(** *** What is sent *)

(** The media given to [sendRealtimeInput], in the order of the calls. *)
Definition sent (done : list Action) : list Blob :=
  flat_map
    (fun a => match a with
              | sendRealtimeInput media => [media]
              | _ => []
              end)
    done.

(** The media an event hands to [sessionPromise.then]: the blob of an audio
    block while the script processor is wired, the snapshot of a tick while
    the timer runs. *)
Definition captured_by (st : LiveSession) (ev : Event) : list Blob :=
  match ev with
  | AudioProcess inputData =>
      if onaudioprocess st then [createBlob inputData] else []
  | Tick (Some base64) =>
      if interval st then [mkBlob base64 "image/jpeg"] else []
  | _ => []
  end.

Fixpoint captured (st : LiveSession) (evs : list Event) : list Blob :=
  match evs with
  | [] => []
  | ev :: rest => captured_by st ev ++ captured (fst (step st ev)) rest
  end.

(** The media that wait for the session. *)
Definition waiting_media (st : LiveSession) : list Blob :=
  match sessionPromise st with
  | Pending waiting => waiting
  | _ => []
  end.

(** *** How the fields of the component fit together *)

Definition is_fulfilled (p : SessionPromise) : bool :=
  match p with
  | Fulfilled => true
  | _ => false
  end.

Definition present {A} (o : option A) : bool :=
  match o with
  | Some _ => true
  | None => false
  end.

Definition consistentb (st : LiveSession) : bool :=
  match progress st, sessionPromise st with
  | NotStarted, NotCreated | AwaitingMedia, NotCreated => true
  | AwaitingSession, Pending _ => true
  | Finished, NotCreated =>
      match status st with
      | error => true
      | _ => false
      end
  | Finished, Fulfilled | Finished, Rejected => true
  | _, _ => false
  end
  && Bool.eqb (interval st) (is_fulfilled (sessionPromise st))
  && Bool.eqb (sessionRef st) (interval st)
  && match cleanup st, sessionPromise st with
     | cleanup_release, Fulfilled => true
     | cleanup_release, _ => false
     | cleanup_empty, Fulfilled => false
     | cleanup_empty, _ => true
     end
  && implb (onaudioprocess st) (callbacks_registered st)
  && match progress st with
     | NotStarted => true
     | _ => present (inputAudioContextRef st)
            && present (outputAudioContextRef st)
     end
  && match status st with
     | connected | disconnected => callbacks_registered st
     | connecting | error => true
     end.

Definition consistent (st : LiveSession) : Prop := consistentb st = true.

(** ** Teardown *)

(** What [cleanup] gives back to the platform. *)
Inductive Release : Type :=
| clearInterval
| stop_tracks
| close_input
| close_output.

(** The function the effect returns, [() => { cleanup(); }]: what it asks
    the platform to release when the component goes away. *)
Definition effect_cleanup (st : LiveSession) : list Release :=
  match cleanup st with
  | cleanup_empty => []
  | cleanup_release =>
      [clearInterval; stop_tracks]
      ++ (if present (inputAudioContextRef st) then [close_input] else [])
      ++ (if present (outputAudioContextRef st) then [close_output] else [])
  end.

(** The events that follow the mounting in one run of the effect. *)
Definition one_run (later : list Event) : Prop :=
  Forall (fun ev => ev <> Mount) later.

(** The cursor [c] advanced by the durations of the buffers of a schedule,
    one addition after the other, as the handler makes them. *)
Definition advanced (c : Q) (l : list (AudioBuffer * Q)) : Q :=
  fold_left (fun acc e => (acc + duration (fst e))%Q) l c.

(** ** Tactics *)

(** Division and remainder by constants are given to [lia] through their
    Euclidean equations. *)
Ltac Zify.zify_post_hook ::= Z.to_euclidean_division_equations.

(** Splits on the first integer comparison of the goal. *)
Ltac case_leb :=
  match goal with
  | |- context [Z.leb ?a ?b] => destruct (Z.leb_spec a b)
  end.

(** Settles a goal about the fields of a component by cases on the
    fields. *)
Ltac by_fields st :=
  unfold consistent, consistentb, callbacks_registered;
  destruct st as [s l ic oc c sr pr pm oa iv cl];
  cbn;
  try (destruct pr, pm; cbn; auto;
       try (destruct iv, sr, oa, cl; cbn; auto;
            try (destruct ic, oc, s; cbn; auto))).

(** * Properties *)

(** ** Loops *)

Lemma length_store {A} (i : nat) (v : A) (a : list A) :
  List.length (store i v a) = List.length a.
Proof.
  revert i; induction a as [|x a IH]; intros [|i]; simpl; auto.
Qed.

Lemma firstn_store {A} (k : nat) (v : A) (a : list A) :
  k < List.length a -> firstn (S k) (store k v a) = firstn k a ++ [v].
Proof.
  revert k; induction a as [|x a IH]; intros k Hk; simpl in Hk; [lia|].
  destruct k as [|k].
  - reflexivity.
  - cbn [store]. rewrite !firstn_cons. rewrite IH by lia. reflexivity.
Qed.

Lemma fold_store {A} (f : nat -> A) (body : nat -> list A -> list A) :
  forall m k a,
    (forall i acc, k <= i < k + m -> body i acc = store i (f i) acc) ->
    List.length a = k + m ->
    fold_left (fun acc i => body i acc) (seq k m) a
    = firstn k a ++ List.map f (seq k m).
Proof.
  induction m as [|m IH]; intros k a Hbody Hlen.
  - simpl. rewrite app_nil_r. rewrite <- (firstn_all a) at 1.
    f_equal. lia.
  - cbn [seq fold_left List.map]. rewrite Hbody by lia.
    rewrite IH.
    + rewrite firstn_store by lia. rewrite <- app_assoc. reflexivity.
    + intros i acc Hi. apply Hbody. lia.
    + rewrite length_store. lia.
Qed.

(** A loop that stores [f i] at every index computes the array of the
    [f i]. *)
Lemma for_loop_store {A} (f : nat -> A) (body : nat -> list A -> list A)
    (n : nat) (init : list A) :
  (forall i acc, i < n -> body i acc = store i (f i) acc) ->
  List.length init = n ->
  for_loop n body init = List.map f (seq 0 n).
Proof.
  intros Hbody Hlen. unfold for_loop.
  rewrite (fold_store f body n 0 init); auto.
  intros i acc Hi. apply Hbody. lia.
Qed.

Lemma map_nth_seq {A} (l : list A) (d : A) :
  List.map (fun i => nth i l d) (seq 0 (List.length l)) = l.
Proof.
  apply (nth_ext _ _ d d).
  - rewrite length_map, length_seq. reflexivity.
  - intros n Hn. rewrite length_map, length_seq in Hn.
    rewrite (nth_indep _ d (nth 0 l d)) by (rewrite length_map, length_seq; exact Hn).
    rewrite (map_nth (fun i => nth i l d) (seq 0 (List.length l)) 0 n).
    rewrite seq_nth by exact Hn. reflexivity.
Qed.

Lemma map_map_nth_seq {A B} (g : A -> B) (l : list A) (d : A) :
  List.map (fun i => g (nth i l d)) (seq 0 (List.length l)) = List.map g l.
Proof.
  rewrite <- (map_nth_seq l d) at 2. rewrite map_map. reflexivity.
Qed.

Lemma append_string_of_list (l1 l2 : list ascii) :
  (string_of_list_ascii l1 ++ string_of_list_ascii l2)%string
  = string_of_list_ascii (l1 ++ l2).
Proof.
  induction l1 as [|c l1 IH]; simpl; [reflexivity|]. rewrite IH. reflexivity.
Qed.

Lemma fold_append (g : nat -> ascii) (l : list nat) (acc : list ascii) :
  fold_left (fun binary i => (binary ++ String (g i) EmptyString)%string) l
    (string_of_list_ascii acc)
  = string_of_list_ascii (acc ++ List.map g l).
Proof.
  revert acc; induction l as [|i l IH]; intros acc; simpl.
  - rewrite app_nil_r. reflexivity.
  - change (String (g i) EmptyString) with (string_of_list_ascii [g i]).
    rewrite append_string_of_list, IH, <- app_assoc. reflexivity.
Qed.

Lemma get_list_ascii (s : string) (i : nat) :
  String.get i s = nth_error (list_ascii_of_string s) i.
Proof.
  revert i; induction s as [|c s IH]; intros [|i]; simpl; auto.
Qed.

Lemma length_list_ascii (s : string) :
  List.length (list_ascii_of_string s) = String.length s.
Proof.
  induction s as [|c s IH]; simpl; auto.
Qed.

(** ** [encode] and [decode] without their loops *)

Lemma encode_eq (bytes : Uint8Array) :
  encode bytes
  = Base64.btoa (string_of_list_ascii (List.map fromCharCode bytes)).
Proof.
  unfold encode, for_loop. f_equal.
  change EmptyString with (string_of_list_ascii []).
  rewrite (fold_append (fun i => fromCharCode (nth i bytes x00))).
  simpl. rewrite map_map_nth_seq. reflexivity.
Qed.

Lemma decode_eq (base64 : string) :
  decode base64
  = match Base64.atob base64 with
    | None => Throw InvalidCharacterError
    | Some binaryString =>
        Ok (List.map charCodeAt (list_ascii_of_string binaryString))
    end.
Proof.
  unfold decode. destruct (Base64.atob base64) as [s|]; [|reflexivity].
  f_equal.
  rewrite (for_loop_store
             (fun i => charCodeAt (nth i (list_ascii_of_string s) zero))).
  - rewrite <- length_list_ascii.
    apply (map_map_nth_seq charCodeAt (list_ascii_of_string s) zero).
  - intros i acc Hi. rewrite get_list_ascii.
    rewrite <- length_list_ascii in Hi.
    destruct (nth_error (list_ascii_of_string s) i) as [c|] eqn:E.
    + rewrite (nth_error_nth _ _ _ E). reflexivity.
    + apply nth_error_None in E. lia.
  - apply repeat_length.
Qed.

(** ** Base64 *)

Lemma list_ind3 {A} (P : list A -> Prop) :
  P [] -> (forall a, P [a]) -> (forall a b, P [a; b]) ->
  (forall a b c r, P r -> P (a :: b :: c :: r)) ->
  forall l, P l.
Proof.
  intros H0 H1 H2 H3. fix IH 1.
  intros [|a [|b [|c r]]];
    [apply H0 | apply H1 | apply H2 | apply H3, IH].
Qed.

Lemma digit_facts (n : N) :
  (n < 64)%N ->
  Base64.value (Base64.digit n) = Some n
  /\ Ascii.eqb (Base64.digit n) Base64.pad = false
  /\ Base64.is_ascii_whitespace (Base64.digit n) = false.
Proof.
  intros H. assert (Hk : N.to_nat n < 64) by lia.
  rewrite <- (N2Nat.id n). clear H. revert Hk.
  generalize (N.to_nat n). intros k Hk.
  do 64 (destruct k as [|k]; [repeat split; reflexivity|]).
  lia.
Qed.

Lemma strip_tail_digit (n : N) (cs : list ascii) :
  (n < 64)%N ->
  Base64.strip_tail (Base64.digit n :: cs)
  = Base64.digit n :: Base64.strip_tail cs.
Proof.
  intros H. destruct (digit_facts n H) as (_ & Hp & _).
  cbn [Base64.strip_tail].
  replace (Base64.is_pad_tail (Base64.digit n :: cs)) with false; [reflexivity|].
  destruct cs as [|x [|y cs]]; cbn [Base64.is_pad_tail]; rewrite ?Hp; reflexivity.
Qed.

Lemma values_digits (ss : list N) :
  Forall (fun s => (s < 64)%N) ss ->
  Base64.values (List.map Base64.digit ss) = Some ss.
Proof.
  induction 1 as [|s ss Hs _ IH]; simpl; [reflexivity|].
  destruct (digit_facts s Hs) as (Hv & _). rewrite Hv, IH. reflexivity.
Qed.

Lemma filter_no_whitespace (cs : list ascii) :
  no_whitespace cs ->
  List.filter (fun c => negb (Base64.is_ascii_whitespace c)) cs = cs.
Proof.
  induction 1 as [|c cs Hc _ IH]; simpl; [reflexivity|].
  rewrite Hc, IH. reflexivity.
Qed.

Lemma btoa_chars_readable (l : list N) :
  Forall (fun b => (b < 256)%N) l -> readable l (Base64.btoa_chars l).
Proof.
  induction l as [|a|a b|a b c r IH] using list_ind3; intros Hl.
  - split; [constructor|]. split; [reflexivity|].
    exists []. repeat split; auto.
  - inversion_clear Hl as [|? ? Ha _].
    assert (H1 : (a / 4 < 64)%N) by lia.
    assert (H2 : (a mod 4 * 16 < 64)%N) by lia.
    cbn [Base64.btoa_chars]. split; [|split].
    + repeat constructor; try apply digit_facts; assumption.
    + reflexivity.
    + exists [a / 4; a mod 4 * 16]%N.
      rewrite !strip_tail_digit by assumption.
      split; [reflexivity|]. split; [repeat constructor; assumption|].
      split; [simpl; lia|]. cbn [Base64.atob_octets]. f_equal. lia.
  - inversion_clear Hl as [|? ? Ha Hl']. inversion_clear Hl' as [|? ? Hb _].
    assert (H1 : (a / 4 < 64)%N) by lia.
    assert (H2 : (a mod 4 * 16 + b / 16 < 64)%N) by lia.
    assert (H3 : (b mod 16 * 4 < 64)%N) by lia.
    cbn [Base64.btoa_chars]. split; [|split].
    + repeat constructor; try apply digit_facts; assumption.
    + reflexivity.
    + exists [a / 4; a mod 4 * 16 + b / 16; b mod 16 * 4]%N.
      rewrite !strip_tail_digit by assumption.
      split; [reflexivity|]. split; [repeat constructor; assumption|].
      split; [simpl; lia|]. cbn [Base64.atob_octets].
      f_equal; [lia|]. f_equal. lia.
  - inversion_clear Hl as [|? ? Ha Hl']. inversion_clear Hl' as [|? ? Hb Hl].
    inversion_clear Hl as [|? ? Hc Hr].
    destruct (IH Hr) as (Hws & Hlen & ss & Hstrip & Hss & Hmod & Hoct).
    assert (H1 : (a / 4 < 64)%N) by lia.
    assert (H2 : (a mod 4 * 16 + b / 16 < 64)%N) by lia.
    assert (H3 : (b mod 16 * 4 + c / 64 < 64)%N) by lia.
    assert (H4 : (c mod 64 < 64)%N) by lia.
    cbn [Base64.btoa_chars]. split; [|split].
    + repeat (constructor; [apply digit_facts; assumption|]). exact Hws.
    + cbn [List.length]. lia.
    + exists ((a / 4) :: (a mod 4 * 16 + b / 16) :: (b mod 16 * 4 + c / 64)
              :: (c mod 64) :: ss)%N.
      rewrite !strip_tail_digit by assumption. rewrite Hstrip.
      split; [reflexivity|]. split; [repeat constructor; assumption|].
      split; [cbn [List.length]; lia|].
      cbn [Base64.atob_octets]. rewrite Hoct.
      f_equal; [lia|]. f_equal; [lia|]. f_equal. lia.
Qed.

Lemma N_of_ascii_lt (c : ascii) : (N_of_ascii c < 256)%N.
Proof. apply N_ascii_bounded. Qed.

(** [atob] undoes [btoa]. *)
Lemma atob_btoa (binary : string) :
  Base64.atob (Base64.btoa binary) = Some binary.
Proof.
  unfold Base64.atob, Base64.btoa.
  rewrite list_ascii_of_string_of_list_ascii.
  set (l := List.map N_of_ascii (list_ascii_of_string binary)).
  assert (Hl : Forall (fun b => (b < 256)%N) l).
  { apply Forall_forall. intros x Hx. apply in_map_iff in Hx.
    destruct Hx as (c & <- & _). apply N_of_ascii_lt. }
  destruct (btoa_chars_readable l Hl) as (Hws & Hlen & ss & Hstrip & Hss & Hmod & Hoct).
  rewrite (filter_no_whitespace _ Hws).
  unfold Base64.strip_padding. rewrite Hlen. cbn [Nat.eqb].
  rewrite Hstrip, length_map.
  destruct (Nat.eqb_spec (List.length ss mod 4) 1) as [E|_]; [contradiction|].
  rewrite (values_digits ss Hss), Hoct. unfold l.
  rewrite map_map.
  rewrite (map_ext _ (fun c => c)) by (intros c; apply ascii_N_embedding).
  rewrite map_id, string_of_list_ascii_of_string. reflexivity.
Qed.

(** [decode] undoes [encode]. *)
Lemma decode_encode (bytes : Uint8Array) : decode (encode bytes) = Ok bytes.
Proof.
  rewrite decode_eq, encode_eq, atob_btoa.
  rewrite list_ascii_of_string_of_list_ascii, map_map.
  rewrite (map_ext _ (fun b => b)) by (intros b; apply byte_of_ascii_of_byte).
  rewrite map_id. reflexivity.
Qed.

(** ** Typed arrays *)

Lemma createBlob_int16_eq (data : Float32Array) :
  createBlob_int16 data = List.map (fun s => ToInt16 (s * 32768)%Q) data.
Proof.
  unfold createBlob_int16.
  rewrite (for_loop_store (fun i => ToInt16 (nth i data 0%Q * 32768)%Q)).
  - apply (map_map_nth_seq (fun s => ToInt16 (s * 32768)%Q)).
  - reflexivity.
  - apply repeat_length.
Qed.

Lemma decodeAudioData_eq (bytes : Uint8Array) :
  decodeAudioData bytes
  = let* dataInt16 := new_Int16Array bytes in
    if Nat.eqb (List.length dataInt16) 0 then Throw NotSupportedError
    else Ok (mkAudioBuffer 1 SAMPLE_RATE_OUT
               (List.map (fun v => (inject_Z v / 32768)%Q) dataInt16)).
Proof.
  unfold decodeAudioData. destruct (new_Int16Array bytes) as [a|e]; [|reflexivity].
  cbn [bind]. unfold createBuffer.
  destruct (Nat.eqb (List.length a) 0); [reflexivity|].
  cbn [bind numberOfChannels sampleRate channelData]. do 2 f_equal.
  rewrite (for_loop_store (fun i => (inject_Z (nth i a 0%Z) / 32768)%Q)).
  - apply (map_map_nth_seq (fun v => (inject_Z v / 32768)%Q)).
  - reflexivity.
  - apply repeat_length.
Qed.

Lemma list_ind2 {A} (P : list A -> Prop) :
  P [] -> (forall a, P [a]) -> (forall a b r, P r -> P (a :: b :: r)) ->
  forall l, P l.
Proof.
  intros H0 H1 H2. fix IH 1.
  intros [|a [|b r]]; [apply H0 | apply H1 | apply H2, IH].
Qed.

Lemma Z_of_byte_of_Z (z : Z) : Z_of_byte (byte_of_Z z) = (z mod 256)%Z.
Proof.
  unfold Z_of_byte, byte_of_Z.
  destruct (Byte.of_N (Z.to_N (z mod 256))) as [b|] eqn:E.
  - apply Byte.to_of_N in E. rewrite E. lia.
  - apply Byte.of_N_None_iff in E. lia.
Qed.

Lemma Z_of_byte_range (b : byte) : (0 <= Z_of_byte b < 256)%Z.
Proof.
  unfold Z_of_byte. pose proof (Byte.to_N_bounded b). lia.
Qed.

Lemma ToInt16_range (x : Q) : (-32768 <= ToInt16 x <= 32767)%Z.
Proof.
  unfold ToInt16. case_leb; lia.
Qed.

(** Reading back the bytes of 16-bit elements gives the elements. *)
Lemma int16_elements_of_buffer (a : Int16Array) :
  Forall (fun v => (-32768 <= v <= 32767)%Z) a ->
  int16_elements (Uint8Array_of_buffer a) = a.
Proof.
  induction 1 as [|v a Hv _ IH]; [reflexivity|].
  cbn [Uint8Array_of_buffer flat_map app int16_elements].
  fold (Uint8Array_of_buffer a). rewrite IH. f_equal.
  rewrite !Z_of_byte_of_Z. case_leb; lia.
Qed.

Lemma length_Uint8Array_of_buffer (a : Int16Array) :
  List.length (Uint8Array_of_buffer a) = 2 * List.length a.
Proof.
  induction a as [|v a IH]; [reflexivity|].
  cbn [Uint8Array_of_buffer flat_map app List.length].
  fold (Uint8Array_of_buffer a). lia.
Qed.

Lemma length_int16_elements (bytes : Uint8Array) :
  List.length (int16_elements bytes) = Nat.div2 (List.length bytes).
Proof.
  induction bytes as [|a|a b r IH] using list_ind2; try reflexivity.
  cbn [int16_elements List.length Nat.div2]. rewrite IH. reflexivity.
Qed.

Lemma int16_elements_range (bytes : Uint8Array) :
  Forall (fun v => (-32768 <= v <= 32767)%Z) (int16_elements bytes).
Proof.
  induction bytes as [|a|a b r IH] using list_ind2; try (constructor; fail).
  cbn [int16_elements]. constructor; [|exact IH].
  pose proof (Z_of_byte_range a). pose proof (Z_of_byte_range b).
  case_leb; lia.
Qed.

(** ** Samples *)

Lemma truncate_bounds (x : Q) :
  (0 <= x -> inject_Z (truncate x) <= x /\ x < inject_Z (truncate x) + 1)%Q
  /\ (x <= 0 -> inject_Z (truncate x) - 1 < x /\ x <= inject_Z (truncate x))%Q.
Proof.
  destruct x as [n d].
  unfold truncate, Qle, Qlt, Qplus, Qminus, Qopp, inject_Z. cbn [Qnum Qden].
  pose proof (Z.quot_rem' n (Zpos d)) as E.
  split; intros H.
  - assert (Hn : (0 <= n)%Z) by lia.
    pose proof (Z.rem_bound_pos n (Zpos d) Hn ltac:(lia)).
    simpl. nia.
  - assert (Hn : (n <= 0)%Z) by lia.
    pose proof (Z.rem_bound_neg_pos n (Zpos d)).
    simpl. nia.
Qed.

Lemma truncate_near (x : Q) :
  (inject_Z (truncate x) - 1 < x /\ x < inject_Z (truncate x) + 1)%Q.
Proof.
  destruct (truncate_bounds x) as [Hp Hn].
  destruct (Qlt_le_dec x 0) as [Hneg|Hpos].
  - destruct (Hn (Qlt_le_weak _ _ Hneg)). split; lra.
  - destruct (Hp Hpos). split; lra.
Qed.

Lemma truncate_in_range (x : Q) :
  (-32769 < x)%Q -> (x < 32768)%Q -> (-32768 <= truncate x <= 32767)%Z.
Proof.
  intros H1 H2. destruct (truncate_bounds x) as [Hp Hn].
  assert (G : (-32769 < inject_Z (truncate x)
               /\ inject_Z (truncate x) < 32768)%Q).
  { destruct (Qlt_le_dec x 0) as [Hneg|Hpos].
    - destruct (Hn (Qlt_le_weak _ _ Hneg)). split; lra.
    - destruct (Hp Hpos). split; lra. }
  destruct G as [G1 G2].
  assert (G1' : (-32769 < truncate x)%Z) by (rewrite Zlt_Qlt; exact G1).
  assert (G2' : (truncate x < 32768)%Z) by (rewrite Zlt_Qlt; exact G2).
  lia.
Qed.

Lemma ToInt16_no_wrap (x : Q) :
  (-32768 <= truncate x <= 32767)%Z -> ToInt16 x = truncate x.
Proof.
  intros R. unfold ToInt16. case_leb; lia.
Qed.

Lemma ToInt16_congruent (x : Q) :
  exists k : Z, ToInt16 x = (truncate x + 65536 * k)%Z.
Proof.
  unfold ToInt16. case_leb.
  - exists (- (truncate x / 65536) - 1)%Z. lia.
  - exists (- (truncate x / 65536))%Z. lia.
Qed.

(** A sample below full scale comes back within one quantization step. *)
Lemma sample_close (s : Q) :
  below_full_scale s ->
  ToInt16 (s * 32768) = truncate (s * 32768)
  /\ (Qabs (s - inject_Z (ToInt16 (s * 32768)) / 32768) < 1 # 32768)%Q.
Proof.
  intros [H1 H2].
  assert (R : (-32768 <= truncate (s * 32768) <= 32767)%Z)
    by (apply truncate_in_range; lra).
  pose proof (ToInt16_no_wrap _ R) as E.
  split; [exact E|]. rewrite E.
  apply Qabs_Qlt_condition. unfold Qdiv. change (/ 32768)%Q with (1 # 32768)%Q.
  destruct (truncate_near (s * 32768)). split; lra.
Qed.

Lemma int16_sample_range (v : Z) :
  (-32768 <= v <= 32767)%Z ->
  (-1 <= inject_Z v / 32768 /\ inject_Z v / 32768 < 1)%Q.
Proof.
  intros [H1 H2]. unfold Qdiv. change (/ 32768)%Q with (1 # 32768)%Q.
  assert (G1 : (inject_Z (-32768) <= inject_Z v)%Q) by (rewrite <- Zle_Qle; lia).
  assert (G2 : (inject_Z v <= inject_Z 32767)%Q) by (rewrite <- Zle_Qle; lia).
  change (inject_Z (-32768)) with (-32768)%Q in G1.
  change (inject_Z 32767) with 32767%Q in G2.
  split; lra.
Qed.

(** ** Encoding a block and decoding it *)

Lemma even_double (n : nat) : Nat.even (2 * n) = true.
Proof.
  induction n as [|n IH]; [reflexivity|].
  replace (2 * S n) with (S (S (2 * n))) by lia. exact IH.
Qed.

Lemma new_Int16Array_of_buffer (a : Int16Array) :
  Forall (fun v => (-32768 <= v <= 32767)%Z) a ->
  new_Int16Array (Uint8Array_of_buffer a) = Ok a.
Proof.
  intros Ha. unfold new_Int16Array.
  rewrite length_Uint8Array_of_buffer, even_double.
  rewrite (int16_elements_of_buffer a Ha). reflexivity.
Qed.

(** What comes back of a block that is not empty: every sample converted to
    16 bits and divided by 32768. *)
Lemma roundtrip_eq (block : Float32Array) :
  block <> [] ->
  roundtrip block
  = Ok (mkAudioBuffer 1 SAMPLE_RATE_OUT
          (List.map (fun s => (inject_Z (ToInt16 (s * 32768)) / 32768)%Q) block)).
Proof.
  intros Hne. unfold roundtrip, createBlob. cbn [data].
  rewrite decode_encode. cbn [bind].
  rewrite decodeAudioData_eq, createBlob_int16_eq.
  rewrite new_Int16Array_of_buffer.
  - cbn [bind]. rewrite length_map.
    destruct block as [|s block]; [contradiction|].
    cbn [List.length Nat.eqb]. rewrite map_map. reflexivity.
  - apply Forall_forall. intros v Hv. apply in_map_iff in Hv.
    destruct Hv as (s & <- & _). apply ToInt16_range.
Qed.

(** C8: for every byte array [b], [decode (encode b)] gives back [b]: the
    base64 encoding of the uplink and the decoding of the downlink are
    inverse of each other on arbitrary bytes. *)
Theorem C8_decode_encode_inverse :
  forall b : Uint8Array, decode (encode b) = Ok b.
Proof.
  intros b. apply decode_encode.
Qed.

(** C3, as stated, fails: a block holding the sample 1.0, which is
    normalized, is stored as -32768 and comes back as -1.0, two units away
    from the original.  (The empty block is not decoded at all: its
    decoding asks for a buffer of no frame.) *)
Lemma C3_full_scale_sample_wraps :
  createBlob_int16 [1%Q] = [(-32768)%Z]
  /\ roundtrip [1%Q] = Ok (mkAudioBuffer 1 24000 [(-32768 # 32768)%Q])
  /\ ~ close 1 (-32768 # 32768)
  /\ roundtrip [] = Throw NotSupportedError
  /\ ~ (forall block : Float32Array,
          Forall normalized block ->
          exists buffer,
            roundtrip block = Ok buffer
            /\ Forall2 close block (channelData buffer)).
Proof.
  split; [reflexivity|]. split; [reflexivity|].
  split; [intros Hc; vm_compute in Hc; apply Hc; reflexivity|].
  split; [reflexivity|].
  intros H. destruct (H [1%Q]) as (buffer & E & C).
  - repeat constructor; discriminate.
  - rewrite roundtrip_eq in E by discriminate.
    injection E as <-. cbn [channelData List.map] in C.
    inversion_clear C as [|? ? ? ? Hc _].
    vm_compute in Hc. apply Hc. reflexivity.
Qed.

(** C3, amended: for every block that is not empty and whose samples are
    in [-1, 1) (1.0 excluded), encoding it through [createBlob] and decoding
    the text through [decode] and [decodeAudioData] gives a buffer of as
    many samples, each within 1/32768 of the original; a block of 4096
    zero samples comes back as 4096 zero samples. *)
Theorem C3_roundtrip_within_one_step :
  (forall block : Float32Array,
     block <> [] ->
     Forall below_full_scale block ->
     exists buffer,
       roundtrip block = Ok buffer
       /\ frames buffer = List.length block
       /\ Forall2 close block (channelData buffer))
  /\ (exists buffer,
        roundtrip (repeat 0%Q 4096) = Ok buffer
        /\ frames buffer = 4096
        /\ Forall (fun r => (r == 0)%Q) (channelData buffer)).
Proof.
  split.
  - intros block Hne Hb. eexists. split; [apply roundtrip_eq; exact Hne|].
    unfold frames. cbn [channelData]. split; [apply length_map|].
    clear Hne. induction Hb as [|s block Hs _ IH]; cbn [List.map]; constructor.
    + unfold close. apply Qlt_le_weak. apply sample_close. exact Hs.
    + exact IH.
  - eexists. split; [apply roundtrip_eq; discriminate|].
    unfold frames. cbn [channelData]. rewrite length_map, repeat_length.
    split; [reflexivity|].
    apply Forall_forall. intros r Hr. apply in_map_iff in Hr.
    destruct Hr as (s & <- & Hs). apply repeat_spec in Hs. subst s.
    reflexivity.
Qed.

(** A block on which the theorem applies: 0.5, -1 and a value between two
    16-bit steps. *)
Lemma C3_roundtrip_witness :
  exists buffer,
    roundtrip [1 # 2; -1; 7 # 131072]%Q = Ok buffer
    /\ frames buffer = 3
    /\ Forall2 close [1 # 2; -1; 7 # 131072]%Q (channelData buffer).
Proof.
  apply (proj1 C3_roundtrip_within_one_step).
  - discriminate.
  - repeat constructor; discriminate.
Defined.

(** ** The 16-bit conversion of the uplink *)

(** C4, as stated, fails: the sample 7/131072 (1.75 sixteen-bit steps) is
    stored as 1, while rounding [s * 32768] gives 2. *)
Lemma C4_conversion_truncates :
  createBlob_int16 [7 # 131072]%Q = [1%Z]
  /\ spec_round ((7 # 131072) * 32768)%Q = 2%Z
  /\ ~ (forall s : Q,
          createBlob_int16 [s] = [spec_round (s * 32768)%Q]).
Proof.
  split; [reflexivity|]. split; [reflexivity|].
  intros H. specialize (H (7 # 131072)%Q). discriminate H.
Qed.

(** C4, amended: for every sample [s] of a block, the 16-bit integer the
    uplink encoder stores for it is the integer part of [s * 32768], taken
    towards zero (not the nearest integer), reduced modulo 2^16 into
    [-32768, 32767]; nothing is clamped: the stored value equals the integer
    part whenever that fits 16 bits, and differs from it by a multiple of
    65536 otherwise, so that 1.0 is stored as -32768. *)
Theorem C4_conversion_truncates_and_wraps :
  (forall (block : Float32Array) (i : nat) (s : Q),
     nth_error block i = Some s ->
     exists v : Z,
       nth_error (createBlob_int16 block) i = Some v
       /\ (-32768 <= v <= 32767)%Z
       /\ (exists k : Z, v = truncate (s * 32768) + 65536 * k)%Z
       /\ (0 <= s ->
           inject_Z (truncate (s * 32768)) <= s * 32768
           /\ s * 32768 < inject_Z (truncate (s * 32768)) + 1)%Q
       /\ (s <= 0 ->
           inject_Z (truncate (s * 32768)) - 1 < s * 32768
           /\ s * 32768 <= inject_Z (truncate (s * 32768)))%Q
       /\ (-32769 < s * 32768 -> s * 32768 < 32768 ->
           v = truncate (s * 32768))%Q)
  /\ createBlob_int16 [1%Q] = [(-32768)%Z].
Proof.
  split; [|reflexivity].
  intros block i s Hs. exists (ToInt16 (s * 32768)).
  split.
  { rewrite createBlob_int16_eq.
    apply (map_nth_error (fun s => ToInt16 (s * 32768)%Q)). exact Hs. }
  split; [apply ToInt16_range|].
  split; [apply ToInt16_congruent|].
  destruct (truncate_bounds (s * 32768)) as [Hp Hn].
  split; [intros H; apply Hp; lra|].
  split; [intros H; apply Hn; lra|].
  intros H1 H2. apply ToInt16_no_wrap, truncate_in_range; assumption.
Qed.

(** The theorem at the second sample of a block. *)
Lemma C4_conversion_witness :
  exists v : Z,
    nth_error (createBlob_int16 [0; -(3 # 4)]%Q) 1 = Some v
    /\ (-32768 <= v <= 32767)%Z
    /\ (exists k : Z, v = truncate (-(3 # 4) * 32768) + 65536 * k)%Z
    /\ (0 <= -(3 # 4) ->
        inject_Z (truncate (-(3 # 4) * 32768)) <= -(3 # 4) * 32768
        /\ -(3 # 4) * 32768 < inject_Z (truncate (-(3 # 4) * 32768)) + 1)%Q
    /\ (-(3 # 4) <= 0 ->
        inject_Z (truncate (-(3 # 4) * 32768)) - 1 < -(3 # 4) * 32768
        /\ -(3 # 4) * 32768 <= inject_Z (truncate (-(3 # 4) * 32768)))%Q
    /\ (-32769 < -(3 # 4) * 32768 -> -(3 # 4) * 32768 < 32768 ->
        v = truncate (-(3 # 4) * 32768))%Q.
Proof.
  apply (proj1 C4_conversion_truncates_and_wraps [0; -(3 # 4)]%Q 1 (-(3 # 4))%Q).
  reflexivity.
Defined.

(** ** The decoder of the downlink *)

Lemma decodeAudioData_even (bytes : Uint8Array) :
  bytes <> [] ->
  Nat.even (List.length bytes) = true ->
  decodeAudioData bytes
  = Ok (mkAudioBuffer 1 SAMPLE_RATE_OUT
          (List.map (fun v => (inject_Z v / 32768)%Q) (int16_elements bytes))).
Proof.
  intros Hne Hev. rewrite decodeAudioData_eq. unfold new_Int16Array.
  rewrite Hev. cbn [bind].
  destruct bytes as [|a [|b r]]; [contradiction|discriminate Hev|].
  reflexivity.
Qed.

Lemma decodeAudioData_odd (bytes : Uint8Array) :
  Nat.odd (List.length bytes) = true ->
  decodeAudioData bytes = Throw RangeError.
Proof.
  intros Hodd. unfold decodeAudioData, new_Int16Array.
  unfold Nat.odd in Hodd. apply negb_true_iff in Hodd. rewrite Hodd.
  reflexivity.
Qed.

(** C9, as stated, fails: the empty payload has an even length, and
    [decodeAudioData] produces no buffer for it: [createBuffer] refuses a
    buffer of no frame. *)
Lemma C9_empty_payload_refused :
  Nat.even (List.length (@nil byte)) = true
  /\ decodeAudioData [] = Throw NotSupportedError
  /\ ~ (forall bytes : Uint8Array,
          Nat.even (List.length bytes) = true ->
          exists buffer,
            decodeAudioData bytes = Ok buffer
            /\ frames buffer = Nat.div2 (List.length bytes)).
Proof.
  split; [reflexivity|]. split; [reflexivity|].
  intros H. destruct (H [] eq_refl) as (buffer & E & _). discriminate E.
Qed.

(** C9, amended: for every inbound byte payload of even length that is not
    empty, [decodeAudioData] produces a mono buffer at 24 kHz whose sample
    count is half the byte length, every sample being in [-1, 1). *)
Theorem C9_decoded_buffer_shape :
  forall bytes : Uint8Array,
    bytes <> [] ->
    Nat.even (List.length bytes) = true ->
    exists buffer,
      decodeAudioData bytes = Ok buffer
      /\ numberOfChannels buffer = 1
      /\ sampleRate buffer = 24000%positive
      /\ frames buffer = Nat.div2 (List.length bytes)
      /\ Forall (fun x => -1 <= x /\ x < 1)%Q (channelData buffer).
Proof.
  intros bytes Hne Hev. eexists.
  split; [apply decodeAudioData_even; assumption|].
  split; [reflexivity|]. split; [reflexivity|].
  unfold frames. cbn [channelData].
  split; [rewrite length_map; apply length_int16_elements|].
  apply Forall_forall. intros x Hx. apply in_map_iff in Hx.
  destruct Hx as (v & <- & Hv). apply int16_sample_range.
  pose proof (int16_elements_range bytes) as R.
  rewrite Forall_forall in R. apply R. exact Hv.
Qed.

(** The theorem on the four bytes of the samples -32768 and 32767. *)
Lemma C9_decoded_buffer_witness :
  exists buffer,
    decodeAudioData [x00; x80; xff; x7f] = Ok buffer
    /\ numberOfChannels buffer = 1
    /\ sampleRate buffer = 24000%positive
    /\ frames buffer = Nat.div2 (List.length [x00; x80; xff; x7f])
    /\ Forall (fun x => -1 <= x /\ x < 1)%Q (channelData buffer).
Proof.
  apply (C9_decoded_buffer_shape [x00; x80; xff; x7f]).
  - discriminate.
  - reflexivity.
Defined.

(** ** The message handler *)

Lemma decodeAudioData_Ok (bytes : Uint8Array) (buffer : AudioBuffer) :
  decodeAudioData bytes = Ok buffer ->
  numberOfChannels buffer = 1
  /\ sampleRate buffer = SAMPLE_RATE_OUT
  /\ frames buffer = Nat.div2 (List.length bytes)
  /\ 0 < frames buffer.
Proof.
  rewrite decodeAudioData_eq. unfold new_Int16Array.
  destruct (Nat.even (List.length bytes)); [|discriminate].
  cbn [bind].
  destruct (Nat.eqb_spec (List.length (int16_elements bytes)) 0) as [|Hn];
    [discriminate|].
  intros E. injection E as <-. unfold frames. cbn [channelData].
  rewrite length_map. rewrite <- length_int16_elements.
  repeat split. lia.
Qed.

Lemma duration_decoded (bytes : Uint8Array) (buffer : AudioBuffer) :
  decodeAudioData bytes = Ok buffer ->
  duration buffer = (Z.of_nat (frames buffer) # 24000).
Proof.
  intros E. destruct (decodeAudioData_Ok _ _ E) as (_ & Hr & _).
  unfold duration. rewrite Hr. reflexivity.
Qed.

Lemma duration_nonneg (buffer : AudioBuffer) : (0 <= duration buffer)%Q.
Proof.
  unfold duration, Qle. cbn [Qnum Qden]. lia.
Qed.

Lemma onmessage_handled (st : LiveSession) (msg : LiveServerMessage) (t : Q) :
  Handled st msg t (onmessage st msg t).
Proof.
  unfold onmessage.
  destruct (base64Audio msg) as [base64|] eqn:Eb;
    [|apply handled_ignored; auto].
  destruct (outputAudioContextRef st) as [ctx|] eqn:Ec;
    [|apply handled_ignored; auto].
  destruct base64 as [|c base64]; [apply handled_ignored; auto|].
  cbn [truthy].
  destruct (decode (String c base64)) as [bytes|e] eqn:Ed; cbn [bind].
  - destruct (decodeAudioData bytes) as [buffer|e] eqn:Ea.
    + apply (handled_scheduled st msg t (String c base64) bytes buffer);
        auto; congruence.
    + apply (handled_failed st msg t (String c base64) e);
        auto; try congruence.
      rewrite Ed. exact Ea.
  - apply (handled_failed st msg t (String c base64) e); auto; try congruence.
    rewrite Ed. reflexivity.
Qed.

Lemma Qmax_ge_l (x y : Q) : (x <= Qmax x y)%Q.
Proof. apply Q.le_max_l. Qed.

Lemma Qmax_ge_r (x y : Q) : (y <= Qmax x y)%Q.
Proof. apply Q.le_max_r. Qed.

Lemma Qmax_burst (c t : Q) : (t <= c)%Q -> Qmax c t = c.
Proof.
  intros H. unfold Qmax, GenericMinMax.gmax.
  destruct (Qcompare c t) eqn:E; try reflexivity.
  apply Qlt_alt in E. apply Qle_not_lt in H. contradiction.
Qed.

(** C2: the playback cursor never decreases across an execution of the
    message handler; after a handled audio message it is at least the
    reading of the output clock made in that handling; a decoded buffer is
    scheduled to start exactly at the maximum of the cursor and of that
    reading, and the cursor then advances by exactly the duration of the
    buffer, its sample count divided by 24000. *)
Theorem C2_playback_cursor :
  forall (st : LiveSession) (msg : LiveServerMessage) (t : Q),
    let st' := fst (fst (onmessage st msg t)) in
    let done := snd (fst (onmessage st msg t)) in
    (nextStartTimeRef st <= nextStartTimeRef st')%Q
    /\ (forall base64,
          base64Audio msg = Some base64 -> truthy base64 = true ->
          outputAudioContextRef st <> None ->
          (t <= nextStartTimeRef st')%Q)
    /\ (forall base64 bytes buffer,
          base64Audio msg = Some base64 -> truthy base64 = true ->
          outputAudioContextRef st <> None ->
          decode base64 = Ok bytes -> decodeAudioData bytes = Ok buffer ->
          done = [start buffer (Qmax (nextStartTimeRef st) t)])
    /\ (forall buffer when,
          In (start buffer when) done ->
          when = Qmax (nextStartTimeRef st) t
          /\ nextStartTimeRef st' = (when + duration buffer)%Q
          /\ duration buffer = (Z.of_nat (frames buffer) # 24000)).
Proof.
  intros st msg t st' done. subst st' done.
  destruct (onmessage_handled st msg t)
    as [Hi | base64 e Hb Ht Hc Hd | base64 bytes buffer Hb Ht Hc Hd Ha];
    cbn [fst snd nextStartTimeRef set_nextStartTime].
  - split; [apply Qle_refl|]. split; [|split].
    + intros b Eb Et Ec. destruct Hi as [Hi|[Hi|Hi]]; try congruence.
      rewrite Hi in Eb. injection Eb as <-. discriminate Et.
    + intros b bytes buffer Eb Et Ec. destruct Hi as [Hi|[Hi|Hi]]; try congruence.
      rewrite Hi in Eb. injection Eb as <-. discriminate Et.
    + intros buffer when [].
  - split; [apply Qmax_ge_l|]. split; [|split].
    + intros; apply Qmax_ge_r.
    + intros b bytes buffer Eb _ _ Ed Ea.
      rewrite Hb in Eb. injection Eb as <-. rewrite Ed in Hd. cbn [bind] in Hd.
      congruence.
    + intros buffer when [].
  - pose proof (duration_nonneg buffer) as Hn.
    pose proof (Qmax_ge_l (nextStartTimeRef st) t) as Hl.
    pose proof (Qmax_ge_r (nextStartTimeRef st) t) as Hr.
    split; [lra|]. split; [|split].
    + intros; lra.
    + intros b bytes' buffer' Eb _ _ Ed' Ea'.
      rewrite Hb in Eb. injection Eb as <-. congruence.
    + intros buffer' when [E|[]]. injection E as <- <-.
      split; [reflexivity|]. split; [reflexivity|].
      apply (duration_decoded bytes). exact Ha.
Qed.

(** The theorem on a message that carries one sample, handled at time 3
    with the cursor at 5. *)
Lemma C2_playback_cursor_witness :
  let st := set_nextStartTime 5 (startSession mounted) in
  let msg := audio_message "AAA=" in
  (nextStartTimeRef st <= nextStartTimeRef (fst (fst (onmessage st msg 3))))%Q
  /\ In (start (mkAudioBuffer 1 24000 [0 # 32768]) 5)
        (snd (fst (onmessage st msg 3)))
  /\ nextStartTimeRef (fst (fst (onmessage st msg 3)))
     = (5 + duration (mkAudioBuffer 1 24000 [0 # 32768]))%Q.
Proof.
  intros st msg.
  destruct (C2_playback_cursor st msg 3) as (H1 & _ & _ & H4).
  split; [exact H1|].
  assert (Hin : In (start (mkAudioBuffer 1 24000 [0 # 32768]) 5)
                  (snd (fst (onmessage st msg 3)))) by (left; reflexivity).
  split; [exact Hin|].
  exact (proj1 (proj2 (H4 _ _ Hin))).
Defined.

(** C7: a message without audio payload (no
    [serverContent.modelTurn.parts[0].inlineData.data]) is ignored by the
    downlink: the component, its playback cursor included, is unchanged,
    and nothing is decoded or scheduled. *)
Theorem C7_message_without_audio_ignored :
  forall (st : LiveSession) (msg : LiveServerMessage) (t : Q),
    base64Audio msg = None ->
    onmessage st msg t = (st, [], Ok tt)
    /\ nextStartTimeRef (fst (fst (onmessage st msg t))) = nextStartTimeRef st
    /\ scheduled (snd (fst (onmessage st msg t))) = []
    /\ step st (Message msg t) = (st, []).
Proof.
  intros st msg t H.
  assert (E : onmessage st msg t = (st, [], Ok tt))
    by (unfold onmessage; rewrite H; reflexivity).
  split; [exact E|]. rewrite E. split; [reflexivity|]. split; [reflexivity|].
  cbn [step]. rewrite E. destruct (callbacks_registered st); reflexivity.
Qed.

(** The theorem on a message whose turn has a text part only. *)
Lemma C7_message_without_audio_witness :
  let st := set_nextStartTime 5 (startSession mounted) in
  let msg :=
    mkMessage
      (Some (mkServerContent
               (Some (mkContent (Some [mkPart None (Some "hello"%string)])))
               true)) in
  onmessage st msg 7 = (st, [], Ok tt)
  /\ nextStartTimeRef (fst (fst (onmessage st msg 7))) = nextStartTimeRef st
  /\ scheduled (snd (fst (onmessage st msg 7))) = []
  /\ step st (Message msg 7) = (st, []).
Proof.
  intros st msg. apply (C7_message_without_audio_ignored st msg 7).
  reflexivity.
Defined.

(** C10: the decoder fails on some inbound payloads instead of skipping
    them: for every payload whose decoded byte length is odd, building the
    [Int16Array] over the bytes raises a RangeError in [decodeAudioData];
    the handler that received it ends with that error and schedules
    nothing; such payloads exist. *)
Theorem C10_odd_payload_raises :
  (forall bytes : Uint8Array,
     Nat.odd (List.length bytes) = true ->
     new_Int16Array bytes = Throw RangeError
     /\ decodeAudioData bytes = Throw RangeError)
  /\ (forall (st : LiveSession) (msg : LiveServerMessage) (t : Q)
        base64 bytes,
        base64Audio msg = Some base64 ->
        outputAudioContextRef st <> None ->
        decode base64 = Ok bytes ->
        Nat.odd (List.length bytes) = true ->
        snd (onmessage st msg t) = Throw RangeError
        /\ scheduled (snd (fst (onmessage st msg t))) = [])
  /\ (exists base64 bytes,
        decode base64 = Ok bytes /\ Nat.odd (List.length bytes) = true).
Proof.
  split; [|split].
  - intros bytes Hodd. split; [|apply decodeAudioData_odd; exact Hodd].
    unfold new_Int16Array. unfold Nat.odd in Hodd.
    apply negb_true_iff in Hodd. rewrite Hodd. reflexivity.
  - intros st msg t base64 bytes Hb Hc Hd Hodd.
    assert (Ht : truthy base64 = true).
    { destruct base64; [|reflexivity].
      vm_compute in Hd. injection Hd as <-. discriminate Hodd. }
    unfold onmessage. rewrite Hb.
    destruct (outputAudioContextRef st); [|contradiction].
    rewrite Ht, Hd. cbn [bind].
    rewrite (decodeAudioData_odd bytes Hodd). split; reflexivity.
  - exists "AA=="%string, [x00]. split; reflexivity.
Qed.

(** The theorem on the payload ["/w=="], which decodes to one byte. *)
Lemma C10_odd_payload_witness :
  snd (onmessage (startSession mounted) (audio_message "/w==") 2)
  = Throw RangeError
  /\ scheduled
       (snd (fst (onmessage (startSession mounted) (audio_message "/w==") 2)))
     = [].
Proof.
  apply (proj1 (proj2 C10_odd_payload_raises)
           (startSession mounted) (audio_message "/w==") 2%Q "/w=="%string [xff]).
  - reflexivity.
  - discriminate.
  - reflexivity.
  - reflexivity.
Defined.

(** ** The schedule of the downlink *)

Lemma scheduled_app (d1 d2 : list Action) :
  scheduled (d1 ++ d2) = scheduled d1 ++ scheduled d2.
Proof. apply flat_map_app. Qed.

Lemma deliver_cons (st : LiveSession) (msg : LiveServerMessage) (t : Q)
    (rest : list (LiveServerMessage * Q)) :
  deliver st ((msg, t) :: rest)
  = (fst (deliver (fst (fst (onmessage st msg t))) rest),
     snd (fst (onmessage st msg t))
     ++ snd (deliver (fst (fst (onmessage st msg t))) rest)).
Proof.
  cbn [deliver]. destruct (onmessage st msg t) as [[st1 done1] r].
  cbn [fst snd]. destruct (deliver st1 rest). reflexivity.
Qed.

(** Whatever is delivered, the buffers scheduled lie between the cursor
    before and the cursor after, one after the other. *)
Lemma deliver_invariant (chunks : list (LiveServerMessage * Q)) :
  forall st : LiveSession,
    (nextStartTimeRef st <= nextStartTimeRef (fst (deliver st chunks)))%Q
    /\ Forall (fun e => nextStartTimeRef st <= snd e
                        /\ ends e <= nextStartTimeRef (fst (deliver st chunks)))%Q
         (scheduled (snd (deliver st chunks)))
    /\ StronglySorted no_overlap (scheduled (snd (deliver st chunks))).
Proof.
  induction chunks as [|[msg t] rest IH]; intros st.
  - cbn. split; [apply Qle_refl|]. split; constructor.
  - rewrite deliver_cons. cbn [fst snd]. rewrite scheduled_app.
    destruct (onmessage_handled st msg t)
      as [Hi | base64 e Hb Ht Hc Hd | base64 bytes buffer Hb Ht Hc Hd Ha];
      cbn [fst snd scheduled flat_map app].
    + apply IH.
    + destruct (IH (set_nextStartTime (Qmax (nextStartTimeRef st) t) st))
        as (H1 & H2 & H3).
      cbn [nextStartTimeRef set_nextStartTime] in H1, H2.
      pose proof (Qmax_ge_l (nextStartTimeRef st) t) as Hl.
      split; [lra|]. split; [|exact H3].
      eapply Forall_impl; [|exact H2].
      cbn beta. intros e' [A B]. split; [lra|exact B].
    + destruct (IH (set_nextStartTime
                      (Qmax (nextStartTimeRef st) t + duration buffer)%Q st))
        as (H1 & H2 & H3).
      cbn [nextStartTimeRef set_nextStartTime] in H1, H2.
      pose proof (Qmax_ge_l (nextStartTimeRef st) t) as Hl.
      pose proof (duration_nonneg buffer) as Hn.
      split; [lra|]. split; [|constructor; [exact H3|]].
      * constructor.
        -- unfold ends. cbn [fst snd]. split; lra.
        -- eapply Forall_impl; [|exact H2].
           cbn beta. intros e' [A B]. split; [lra|exact B].
      * eapply Forall_impl; [|exact H2].
        cbn beta. intros e' [A _]. unfold no_overlap, ends. cbn [fst snd].
        exact A.
Qed.

Lemma StronglySorted_weaken {A} (R R' : A -> A -> Prop) (l : list A) :
  (forall a b, R a b -> R' a b) ->
  StronglySorted R l -> StronglySorted R' l.
Proof.
  intros HR. induction 1 as [|a l _ IH Ha]; constructor; [exact IH|].
  eapply Forall_impl; [|exact Ha]. intros b. apply HR.
Qed.

Lemma no_overlap_in_order (a b : AudioBuffer * Q) :
  no_overlap a b -> starts_in_order a b.
Proof.
  unfold no_overlap, starts_in_order, ends. intros H.
  pose proof (duration_nonneg (fst a)). lra.
Qed.

(** In a burst the buffers scheduled follow each other without a gap, from
    the cursor on. *)
Lemma burst_gapless (chunks : list (LiveServerMessage * Q)) :
  forall st : LiveSession,
    burst st chunks ->
    Sorted abuts (scheduled (snd (deliver st chunks)))
    /\ starts_at (nextStartTimeRef st) (scheduled (snd (deliver st chunks))).
Proof.
  induction chunks as [|[msg t] rest IH]; intros st Hb.
  - cbn. split; constructor.
  - destruct Hb as [Ht Hrest]. rewrite deliver_cons. cbn [fst snd].
    rewrite scheduled_app. revert Hrest.
    destruct (onmessage_handled st msg t)
      as [Hi | base64 e Hb _ Hc Hd | base64 bytes buffer Hb _ Hc Hd Ha];
      cbn [fst snd scheduled flat_map app]; intros Hrest.
    + apply IH. exact Hrest.
    + destruct (IH _ Hrest) as [H1 H2].
      cbn [nextStartTimeRef set_nextStartTime] in H2.
      rewrite (Qmax_burst _ _ Ht) in H1, H2 |- *. split; assumption.
    + destruct (IH _ Hrest) as [H1 H2].
      cbn [nextStartTimeRef set_nextStartTime] in H2.
      rewrite (Qmax_burst _ _ Ht) in H1, H2 |- *.
      split; [|cbn; reflexivity].
      constructor; [exact H1|].
      destruct (scheduled _) as [|e' l]; constructor.
      unfold abuts, ends. cbn [fst snd]. exact H2.
Qed.

Lemma truthy_encode (bytes : Uint8Array) :
  bytes <> [] -> truthy (encode bytes) = true.
Proof.
  intros Hne. rewrite encode_eq. unfold Base64.btoa.
  rewrite list_ascii_of_string_of_list_ascii.
  destruct bytes as [|a [|b [|c r]]]; [contradiction| | |]; reflexivity.
Qed.

Lemma base64Audio_audio_message (base64 : string) :
  base64Audio (audio_message base64) = Some base64.
Proof. reflexivity. Qed.

(** An audio message that decodes is scheduled at the maximum of the
    cursor and the clock. *)
Lemma onmessage_audio (st : LiveSession) (pcm : Uint8Array) (t : Q)
    (buffer : AudioBuffer) :
  outputAudioContextRef st <> None ->
  pcm <> [] ->
  decodeAudioData pcm = Ok buffer ->
  onmessage st (audio_message (encode pcm)) t
  = (set_nextStartTime (Qmax (nextStartTimeRef st) t + duration buffer)%Q st,
     [start buffer (Qmax (nextStartTimeRef st) t)],
     Ok tt).
Proof.
  intros Hc Hne Ha. unfold onmessage.
  rewrite base64Audio_audio_message.
  destruct (outputAudioContextRef st); [|contradiction].
  rewrite (truthy_encode pcm Hne), decode_encode. cbn [bind].
  rewrite Ha. reflexivity.
Qed.

(** C1: for every sequence of inbound chunks delivered in order to
    [onmessage], the start times scheduled never decrease and no two
    buffers overlap (a buffer starts no earlier than any earlier one ends);
    when the chunks after the first arrive in a burst (each at a reading of
    the output clock that is at most the playback cursor), every buffer
    starts exactly when the one before ends; two chunks of 2400 and 1200
    samples at 24 kHz that arrive back to back start 0.1 s apart. *)
Theorem C1_gapless_schedule :
  (forall (st : LiveSession) (chunks : list (LiveServerMessage * Q)),
     StronglySorted starts_in_order (scheduled (snd (deliver st chunks)))
     /\ StronglySorted no_overlap (scheduled (snd (deliver st chunks))))
  /\ (forall (st : LiveSession) (msg : LiveServerMessage) (t : Q)
        (chunks : list (LiveServerMessage * Q)),
        burst (fst (fst (onmessage st msg t))) chunks ->
        Sorted abuts (scheduled (snd (deliver st ((msg, t) :: chunks)))))
  /\ (forall (st : LiveSession) (pcm1 pcm2 : Uint8Array) (t1 t2 : Q),
        outputAudioContextRef st <> None ->
        List.length pcm1 = 4800 ->
        List.length pcm2 = 2400 ->
        (t2 <= Qmax (nextStartTimeRef st) t1 + (1 # 10))%Q ->
        exists b1 b2 s1 s2,
          scheduled
            (snd (deliver st [(audio_message (encode pcm1), t1);
                              (audio_message (encode pcm2), t2)]))
          = [(b1, s1); (b2, s2)]
          /\ frames b1 = 2400 /\ frames b2 = 1200
          /\ s1 = Qmax (nextStartTimeRef st) t1
          /\ (s2 == s1 + (1 # 10))%Q).
Proof.
  split; [|split].
  - intros st chunks.
    destruct (deliver_invariant chunks st) as (_ & _ & H).
    split; [|exact H].
    apply (StronglySorted_weaken no_overlap); [|exact H].
    apply no_overlap_in_order.
  - intros st msg t chunks Hb. rewrite deliver_cons. cbn [fst snd].
    rewrite scheduled_app. revert Hb.
    destruct (onmessage_handled st msg t)
      as [Hi | base64 e Hb _ Hc Hd | base64 bytes buffer Hb _ Hc Hd Ha];
      cbn [fst snd scheduled flat_map app]; intros Hrest.
    + apply burst_gapless. exact Hrest.
    + apply burst_gapless. exact Hrest.
    + destruct (burst_gapless _ _ Hrest) as [H1 H2].
      cbn [nextStartTimeRef set_nextStartTime] in H2.
      constructor; [exact H1|].
      destruct (scheduled _) as [|e' l]; constructor.
      unfold abuts, ends. cbn [fst snd]. exact H2.
  - intros st pcm1 pcm2 t1 t2 Hc L1 L2 Ht.
    assert (N1 : pcm1 <> []) by (intros ->; discriminate L1).
    assert (N2 : pcm2 <> []) by (intros ->; discriminate L2).
    assert (E1 : Nat.even (List.length pcm1) = true) by (rewrite L1; reflexivity).
    assert (E2 : Nat.even (List.length pcm2) = true) by (rewrite L2; reflexivity).
    pose proof (decodeAudioData_even pcm1 N1 E1) as A1.
    pose proof (decodeAudioData_even pcm2 N2 E2) as A2.
    destruct (decodeAudioData_Ok _ _ A1) as (_ & _ & F1 & _).
    destruct (decodeAudioData_Ok _ _ A2) as (_ & _ & F2 & _).
    rewrite L1 in F1. rewrite L2 in F2.
    change (Nat.div2 4800) with 2400 in F1.
    change (Nat.div2 2400) with 1200 in F2.
    pose proof (duration_decoded _ _ A1) as D1. rewrite F1 in D1.
    set (b1 := mkAudioBuffer 1 SAMPLE_RATE_OUT
                 (List.map (fun v => (inject_Z v / 32768)%Q)
                    (int16_elements pcm1))) in *.
    set (b2 := mkAudioBuffer 1 SAMPLE_RATE_OUT
                 (List.map (fun v => (inject_Z v / 32768)%Q)
                    (int16_elements pcm2))) in *.
    exists b1, b2, (Qmax (nextStartTimeRef st) t1),
      (Qmax (Qmax (nextStartTimeRef st) t1 + duration b1) t2).
    split.
    { rewrite deliver_cons.
      rewrite (onmessage_audio st pcm1 t1 b1 Hc N1 A1). cbn [fst snd].
      rewrite deliver_cons.
      rewrite (onmessage_audio
                 (set_nextStartTime
                    (Qmax (nextStartTimeRef st) t1 + duration b1)%Q st)
                 pcm2 t2 b2 Hc N2 A2).
      reflexivity. }
    split; [exact F1|]. split; [exact F2|]. split; [reflexivity|].
    rewrite D1. change (Z.of_nat 2400) with 2400%Z.
    rewrite Q.max_l.
    + apply Qplus_comp; reflexivity.
    + assert (E : (2400 # 24000 == 1 # 10)%Q) by reflexivity.
      rewrite E. exact Ht.
Qed.

(** The theorem on a burst: a first chunk of two samples handled at time
    1, then a chunk of one sample and a message without audio, both handled
    before the cursor is reached. *)
Lemma C1_gapless_schedule_witness :
  Sorted abuts
    (scheduled
       (snd (deliver (startSession mounted)
               [(audio_message "AAAAAA==", 1%Q);
                (audio_message "AAA=", 1%Q);
                (mkMessage None, 1%Q)]))).
Proof.
  apply (proj1 (proj2 C1_gapless_schedule)).
  vm_compute. repeat split; discriminate.
Defined.

(** ** The status of the session *)

Lemma status_then_send (media : Blob) (st : LiveSession) :
  status (fst (then_send media st)) = status st.
Proof.
  unfold then_send. destruct (sessionPromise st); reflexivity.
Qed.

Lemma status_onmessage (st : LiveSession) (msg : LiveServerMessage) (t : Q) :
  status (fst (fst (onmessage st msg t))) = status st.
Proof.
  destruct (onmessage_handled st msg t); reflexivity.
Qed.

(** An event leaves the status as it is or sets it to the status the event
    asks for. *)
Lemma step_status (st : LiveSession) (ev : Event) :
  status (fst (step st ev)) = status st
  \/ target ev = Some (status (fst (step st ev))).
Proof.
  destruct ev as [| |name| |reason| |msg t| |err|inputData|snapshot];
    cbn [step target].
  - left. destruct (progress st); reflexivity.
  - left. destruct (progress st); reflexivity.
  - destruct (progress st); auto.
  - left. destruct (progress st); reflexivity.
  - destruct (progress st); auto.
  - destruct (callbacks_registered st); auto.
  - left. destruct (callbacks_registered st); [|reflexivity].
    apply status_onmessage.
  - destruct (callbacks_registered st); auto.
  - destruct (callbacks_registered st); auto.
  - left. destruct (onaudioprocess st); [|reflexivity].
    unfold scriptProcessor_onaudioprocess.
    pose proof (status_then_send (createBlob inputData) st) as H.
    destruct (then_send (createBlob inputData) st). exact H.
  - left. destruct (interval st); [|reflexivity].
    destruct snapshot as [base64|]; [|reflexivity].
    apply status_then_send.
Qed.

Lemma listed_step (st : LiveSession) (ev : Event) :
  in_order (status st) ev ->
  status (fst (step st ev)) = status st
  \/ listed (status st) (status (fst (step st ev))).
Proof.
  intros Ho. destruct (step_status st ev) as [H|H]; [left; exact H|].
  right. set (s := status (fst (step st ev))) in *. clearbody s.
  destruct ev; cbn [target] in H; try discriminate;
    injection H as <-; cbn [in_order] in Ho.
  - destruct Ho as [-> | ->]; exact I.
  - destruct Ho as [-> | ->]; exact I.
  - rewrite Ho. exact I.
  - rewrite Ho. exact I.
  - destruct Ho as [-> | ->]; exact I.
Qed.

(** C5, as stated, fails: after [getUserMedia] has resolved, an error
    callback followed by a close callback takes the status from ERROR to
    DISCONNECTED. *)
Lemma C5_error_then_close :
  statuses mounted [Mount; MediaGranted; Error (ConnectionError "socket"); Close]
  = [connecting; connecting; error; disconnected]
  /\ ~ (forall evs : list Event,
          only_listed connecting (statuses mounted evs)).
Proof.
  split; [reflexivity|].
  intros H.
  specialize (H [Mount; MediaGranted; Error (ConnectionError "socket"); Close]).
  cbn in H. destruct H as (_ & _ & _ & [E|[]] & _). discriminate E.
Qed.

(** C5, amended: every callback sets the status without looking at the
    current one: once the callbacks are registered, open gives CONNECTED,
    close gives DISCONNECTED and error gives ERROR, and a failure of
    startup (the rejection of [getUserMedia] or of the session promise
    while [startSession] awaits it) gives ERROR; no event changes the
    status in another way, so CONNECTING is never entered again.  Within
    one run of the effect, when the callbacks come in order (open while
    CONNECTING, close while CONNECTED, an error or a startup failure while
    CONNECTING or CONNECTED), the only changes of status are CONNECTING to
    CONNECTED or ERROR and CONNECTED to DISCONNECTED or ERROR. *)
Theorem C5_status_transitions :
  (forall st : LiveSession,
     callbacks_registered st = true ->
     status (fst (step st Open)) = connected
     /\ status (fst (step st Close)) = disconnected
     /\ forall err, status (fst (step st (Error err))) = error)
  /\ (forall st : LiveSession,
        (progress st = AwaitingMedia ->
         forall name, status (fst (step st (MediaDenied name))) = error)
        /\ (progress st = AwaitingSession ->
            forall reason,
              status (fst (step st (SessionRejected reason))) = error))
  /\ (forall (st : LiveSession) (ev : Event),
        status (fst (step st ev)) = status st
        \/ target ev = Some (status (fst (step st ev))))
  /\ (forall (st : LiveSession) (ev : Event),
        status (fst (step st ev)) = connecting -> status st = connecting)
  /\ (forall (st : LiveSession) (evs : list Event),
        one_run evs ->
        orderly st evs -> only_listed (status st) (statuses st evs)).
Proof.
  split; [|split; [|split; [|split]]].
  - intros st Hr. cbn [step]. rewrite Hr. repeat split.
  - intros st. split; intros Hp x; cbn [step]; rewrite Hp; reflexivity.
  - apply step_status.
  - intros st ev H. destruct (step_status st ev) as [E|E]; [congruence|].
    rewrite H in E. destruct ev; discriminate E.
  - intros st evs _. revert st.
    induction evs as [|ev rest IH]; intros st Ho; [exact I|].
    destruct Ho as [Hev Hrest]. cbn [statuses only_listed].
    split; [apply listed_step; exact Hev|]. apply IH. exact Hrest.
Qed.

(** The theorem on a session that opens, plays a message and is closed. *)
Lemma C5_status_transitions_witness :
  only_listed (status (startSession mounted))
    (statuses (startSession mounted)
       [MediaGranted; Open; SessionResolved;
        Message (audio_message "AAA=") 1; Close]).
Proof.
  apply (proj2 (proj2 (proj2 (proj2 C5_status_transitions)))).
  - repeat constructor; discriminate.
  - cbn. repeat split; auto.
Defined.

(** ** Refused capture *)

(** A component in which no handler is registered any more. *)
Lemma inert_step (st : LiveSession) (ev : Event) :
  progress st = Finished -> sessionPromise st = NotCreated ->
  onaudioprocess st = false -> interval st = false ->
  ev <> Mount ->
  step st ev = (st, []).
Proof.
  intros Hp Hs Ha Hi Hev.
  destruct ev; try (contradiction Hev; reflexivity);
    cbn [step]; unfold callbacks_registered;
    rewrite ?Hp, ?Hs, ?Ha, ?Hi; reflexivity.
Qed.

Lemma inert_run (st : LiveSession) (evs : list Event) :
  progress st = Finished -> sessionPromise st = NotCreated ->
  onaudioprocess st = false -> interval st = false ->
  one_run evs ->
  run st evs = (st, [])
  /\ statuses st evs = repeat (status st) (List.length evs).
Proof.
  intros Hp Hs Ha Hi Hevs.
  induction Hevs as [|ev rest Hev _ [IH1 IH2]]; [split; reflexivity|].
  cbn [run statuses]. rewrite (inert_step st ev Hp Hs Ha Hi Hev). cbn [fst].
  rewrite IH1, IH2. split; reflexivity.
Qed.

(** C6: when [getUserMedia] is denied or fails, the status goes from
    CONNECTING straight to ERROR and stays there, the failure is reported
    as the media access error, and whatever happens afterwards in that run
    of the effect the component does nothing else: no audio or video is
    ever sent to the remote session. *)
Theorem C6_capture_denied :
  forall (name : string) (evs : list Event),
    one_run evs ->
    statuses mounted (Mount :: MediaDenied name :: evs)
    = connecting :: error :: repeat error (List.length evs)
    /\ snd (run mounted (Mount :: MediaDenied name :: evs))
       = [console_error "Live session failed" (MediaAccessError name)]
    /\ forall media,
         ~ In (sendRealtimeInput media)
             (snd (run mounted (Mount :: MediaDenied name :: evs))).
Proof.
  intros name evs Hevs.
  set (st := set_progress Finished (setStatus error (startSession mounted))).
  destruct (inert_run st evs eq_refl eq_refl eq_refl eq_refl Hevs) as [Hr Hs].
  assert (E : snd (run mounted (Mount :: MediaDenied name :: evs))
              = [console_error "Live session failed" (MediaAccessError name)]).
  { cbn [run step mounted progress startSession startSession_media
         startSession_catch].
    fold st. rewrite Hr. reflexivity. }
  split; [|split].
  - cbn [statuses step mounted progress startSession startSession_media
         startSession_catch fst status].
    fold st. rewrite Hs. reflexivity.
  - exact E.
  - intros media Hin. rewrite E in Hin.
    destruct Hin as [Hin|[]]. discriminate Hin.
Qed.

(** The theorem on a refusal followed by the events of a session that
    never was: an open callback, an audio block, a tick and a message. *)
Lemma C6_capture_denied_witness :
  snd (run mounted
         [Mount; MediaDenied "NotAllowedError"; Open; AudioProcess [0%Q];
          Tick (Some "AAAA"%string); Message (audio_message "AAA=") 1])
  = [console_error "Live session failed" (MediaAccessError "NotAllowedError")].
Proof.
  apply (C6_capture_denied "NotAllowedError"
           [Open; AudioProcess [0%Q]; Tick (Some "AAAA"%string);
            Message (audio_message "AAA=") 1]).
  repeat constructor; discriminate.
Defined.

(** * Further properties *)

(** ** Shape of the text [encode] writes *)

Lemma length_btoa_chars (l : list N) :
  List.length (Base64.btoa_chars l) = 4 * ((List.length l + 2) / 3).
Proof.
  induction l as [|a|a b|a b c r IH] using list_ind3; try reflexivity.
  cbn [Base64.btoa_chars List.length]. rewrite IH. lia.
Qed.

Lemma btoa_chars_alphabet (l : list N) :
  Forall (fun b => (b < 256)%N) l ->
  Forall base64_char (Base64.btoa_chars l).
Proof.
  intros Hl. destruct (btoa_chars_readable l Hl) as (_ & _ & ss & Hs & Hss & _).
  assert (D : forall n, (n < 64)%N -> base64_char (Base64.digit n)).
  { intros n Hn. left. destruct (digit_facts n Hn) as (E & _). congruence. }
  clear ss Hs Hss.
  induction l as [|a|a b|a b c r IH] using list_ind3.
  - constructor.
  - inversion_clear Hl as [|? ? Ha _]. cbn [Base64.btoa_chars].
    do 2 (constructor; [apply D; lia|]).
    do 2 (constructor; [right; reflexivity|]). constructor.
  - inversion_clear Hl as [|? ? Ha Hl']. inversion_clear Hl' as [|? ? Hb _].
    cbn [Base64.btoa_chars].
    do 3 (constructor; [apply D; lia|]).
    constructor; [right; reflexivity|]. constructor.
  - inversion_clear Hl as [|? ? Ha Hl']. inversion_clear Hl' as [|? ? Hb Hl].
    inversion_clear Hl as [|? ? Hc Hr]. cbn [Base64.btoa_chars].
    repeat (constructor; [apply D; lia|]). apply IH. exact Hr.
Qed.

Lemma length_string_of_list (l : list ascii) :
  String.length (string_of_list_ascii l) = List.length l.
Proof.
  induction l as [|c l IH]; simpl; auto.
Qed.

(** The text of [encode] has four characters for every three bytes, the
    last group filled up, and is written in the base64 alphabet and [=]. *)
Theorem encode_shape :
  forall bytes : Uint8Array,
    String.length (encode bytes) = 4 * ((List.length bytes + 2) / 3)
    /\ Forall base64_char (list_ascii_of_string (encode bytes)).
Proof.
  intros bytes. rewrite encode_eq. unfold Base64.btoa.
  rewrite !list_ascii_of_string_of_list_ascii, length_string_of_list.
  rewrite length_btoa_chars, !length_map. split; [reflexivity|].
  apply btoa_chars_alphabet. apply Forall_forall. intros x Hx.
  apply in_map_iff in Hx. destruct Hx as (c & <- & _). apply N_of_ascii_lt.
Qed.

(** ** Text that [decode] refuses *)

Lemma strip_tail_keeps (c : ascii) (l : list ascii) :
  In c l -> c <> Base64.pad -> In c (Base64.strip_tail l).
Proof.
  intros Hin Hc. induction l as [|x r IH]; [contradiction|].
  cbn [Base64.strip_tail].
  destruct (Base64.is_pad_tail (x :: r)) eqn:E.
  - exfalso. destruct r as [|y [|z r]]; cbn [Base64.is_pad_tail] in E.
    + apply Ascii.eqb_eq in E. destruct Hin as [->|[]]. contradiction.
    + apply andb_true_iff in E. destruct E as [E1 E2].
      apply Ascii.eqb_eq in E1, E2.
      destruct Hin as [->|[->|[]]]; contradiction.
    + discriminate E.
  - destruct Hin as [->|Hin]; [left; reflexivity|right; apply IH; exact Hin].
Qed.

Lemma values_foreign (c : ascii) (l : list ascii) :
  In c l -> Base64.value c = None -> Base64.values l = None.
Proof.
  intros Hin Hc. induction l as [|x r IH]; [contradiction|].
  cbn [Base64.values]. destruct Hin as [->|Hin].
  - rewrite Hc. reflexivity.
  - rewrite (IH Hin). destruct (Base64.value x); reflexivity.
Qed.

(** A text that holds a character outside the base64 alphabet, other than
    white space and [=], is refused by [decode] with an
    InvalidCharacterError, wherever the character stands. *)
Theorem decode_foreign_character :
  forall (base64 : string) (c : ascii),
    In c (list_ascii_of_string base64) ->
    foreign_char c ->
    decode base64 = Throw InvalidCharacterError.
Proof.
  intros base64 c Hin (Hv & Hw & Hp).
  rewrite decode_eq. unfold Base64.atob.
  set (l0 := List.filter (fun c => negb (Base64.is_ascii_whitespace c))
               (list_ascii_of_string base64)).
  assert (H0 : In c l0).
  { apply filter_In. split; [exact Hin|]. rewrite Hw. reflexivity. }
  assert (H1 : In c (Base64.strip_padding l0)).
  { unfold Base64.strip_padding.
    destruct (Nat.eqb (List.length l0 mod 4) 0); [|exact H0].
    apply strip_tail_keeps; assumption. }
  rewrite (values_foreign c _ H1 Hv).
  destruct (Nat.eqb _ 1); reflexivity.
Qed.

(** The theorem on a text in the URL-safe alphabet. *)
Lemma decode_foreign_character_witness :
  decode "AA-_" = Throw InvalidCharacterError.
Proof.
  apply (decode_foreign_character "AA-_" "-"%char).
  - right. right. left. reflexivity.
  - repeat split. discriminate.
Defined.

(** ** The bytes of a blob *)

Lemma byte_of_Z_of_byte (b : byte) : byte_of_Z (Z_of_byte b) = b.
Proof.
  unfold byte_of_Z, Z_of_byte. pose proof (Byte.to_N_bounded b) as Hb.
  replace (Z.to_N (Z.of_N (Byte.to_N b) mod 256)) with (Byte.to_N b) by lia.
  rewrite Byte.of_to_N. reflexivity.
Qed.

(** Writing back the 16-bit elements read from an even number of bytes
    gives the bytes. *)
Lemma buffer_of_int16_elements (bytes : Uint8Array) :
  Nat.even (List.length bytes) = true ->
  Uint8Array_of_buffer (int16_elements bytes) = bytes.
Proof.
  induction bytes as [|a|a b r IH] using list_ind2; intros Hev.
  - reflexivity.
  - discriminate Hev.
  - cbn [int16_elements Uint8Array_of_buffer flat_map app].
    fold (Uint8Array_of_buffer (int16_elements r)).
    rewrite (IH Hev).
    pose proof (Z_of_byte_range a) as Ha. pose proof (Z_of_byte_range b) as Hb.
    set (u := (Z_of_byte a + 256 * Z_of_byte b)%Z).
    assert (Hu : ((if (32768 <=? u)%Z then u - 65536 else u) mod 65536 = u)%Z)
      by (subst u; case_leb; lia).
    rewrite Hu.
    replace (u mod 256)%Z with (Z_of_byte a) by (subst u; lia).
    replace (u / 256)%Z with (Z_of_byte b) by (subst u; lia).
    rewrite !byte_of_Z_of_byte. reflexivity.
Qed.

Lemma truncate_scaled (v : Z) :
  truncate ((inject_Z v / 32768) * 32768)%Q = v.
Proof.
  unfold truncate, Qdiv, Qmult, Qinv, inject_Z. cbn [Qnum Qden].
  change (Z.pos (1 * 32768 * 1)) with 32768%Z.
  rewrite Z.mul_1_r. apply Z.quot_mul. discriminate.
Qed.

(** A sample that is a 16-bit value over 32768 is converted back to that
    value. *)
Lemma ToInt16_scaled (v : Z) :
  (-32768 <= v <= 32767)%Z ->
  ToInt16 ((inject_Z v / 32768) * 32768)%Q = v.
Proof.
  intros Hv. rewrite ToInt16_no_wrap; rewrite truncate_scaled; auto.
Qed.

Lemma createBlob_int16_scaled (a : Int16Array) :
  Forall (fun v => (-32768 <= v <= 32767)%Z) a ->
  createBlob_int16 (List.map (fun v => (inject_Z v / 32768)%Q) a) = a.
Proof.
  intros Ha. rewrite createBlob_int16_eq, map_map.
  induction Ha as [|v a Hv _ IH]; [reflexivity|].
  cbn [List.map]. rewrite (ToInt16_scaled v Hv), IH. reflexivity.
Qed.

(** For every block, in range or not, the text of the blob decodes to two
    bytes per sample, which read as 16-bit elements are the values stored
    for the samples; the text has four characters for every three of these
    bytes. *)
Theorem createBlob_payload :
  forall block : Float32Array,
    exists bytes : Uint8Array,
      decode (data (createBlob block)) = Ok bytes
      /\ List.length bytes = 2 * List.length block
      /\ new_Int16Array bytes
         = Ok (List.map (fun s => ToInt16 (s * 32768)%Q) block)
      /\ String.length (data (createBlob block))
         = 4 * ((2 * List.length block + 2) / 3).
Proof.
  intros block. exists (Uint8Array_of_buffer (createBlob_int16 block)).
  unfold createBlob. cbn [data].
  split; [apply decode_encode|].
  assert (L : List.length (Uint8Array_of_buffer (createBlob_int16 block))
              = 2 * List.length block).
  { rewrite length_Uint8Array_of_buffer, createBlob_int16_eq, length_map.
    reflexivity. }
  split; [exact L|]. split.
  - rewrite createBlob_int16_eq. apply new_Int16Array_of_buffer.
    apply Forall_forall. intros v Hv. apply in_map_iff in Hv.
    destruct Hv as (s & <- & _). apply ToInt16_range.
  - rewrite (proj1 (encode_shape _)), L. reflexivity.
Qed.

(** A payload of the downlink that is decoded and encoded again by the
    uplink gives the text of the same bytes: the samples of a decoded
    buffer are stored without loss. *)
Theorem decoded_samples_encode_back :
  forall bytes : Uint8Array,
    well_formed bytes ->
    decodeAudioData bytes = Ok (decoded bytes)
    /\ data (createBlob (channelData (decoded bytes))) = encode bytes.
Proof.
  intros bytes [Hne Hev]. split; [apply decodeAudioData_even; assumption|].
  unfold createBlob, decoded. cbn [data channelData].
  rewrite createBlob_int16_scaled by apply int16_elements_range.
  rewrite (buffer_of_int16_elements bytes Hev). reflexivity.
Qed.

(** The theorem on the four bytes of the samples -32768 and 32767. *)
Lemma decoded_samples_encode_back_witness :
  decodeAudioData [x00; x80; xff; x7f] = Ok (decoded [x00; x80; xff; x7f])
  /\ data (createBlob (channelData (decoded [x00; x80; xff; x7f])))
     = encode [x00; x80; xff; x7f].
Proof.
  apply decoded_samples_encode_back. split; [discriminate|reflexivity].
Defined.

Lemma quantized_idempotent (s : Q) : quantized (quantized s) = quantized s.
Proof.
  unfold quantized at 1. unfold quantized at 1.
  rewrite (ToInt16_scaled _ (ToInt16_range _)). reflexivity.
Qed.

(** Encoding and decoding a block a second time changes nothing: what
    comes back of any block that is not empty, in range or not, comes back
    of itself, and is encoded to the same blob as the block. *)
Theorem roundtrip_idempotent :
  forall block : Float32Array,
    block <> [] ->
    exists buffer,
      roundtrip block = Ok buffer
      /\ channelData buffer = List.map quantized block
      /\ roundtrip (channelData buffer) = Ok buffer
      /\ createBlob (channelData buffer) = createBlob block.
Proof.
  intros block Hne. eexists. split; [apply roundtrip_eq; exact Hne|].
  cbn [channelData]. split; [reflexivity|]. split.
  - rewrite roundtrip_eq by (destruct block; [contradiction|discriminate]).
    rewrite map_map. do 2 f_equal. apply map_ext. intros s.
    apply quantized_idempotent.
  - unfold createBlob. rewrite !createBlob_int16_eq, map_map.
    do 3 f_equal. apply map_ext. intros s.
    apply (ToInt16_scaled _ (ToInt16_range _)).
Qed.

(** The theorem on a block with a sample out of range. *)
Lemma roundtrip_idempotent_witness :
  exists buffer,
    roundtrip [1 # 3; 5 # 2]%Q = Ok buffer
    /\ channelData buffer = List.map quantized [1 # 3; 5 # 2]%Q
    /\ roundtrip (channelData buffer) = Ok buffer
    /\ createBlob (channelData buffer) = createBlob [1 # 3; 5 # 2]%Q.
Proof.
  apply (roundtrip_idempotent [1 # 3; 5 # 2]%Q). discriminate.
Defined.

(** ** Messages that are not played, and the time that is *)

Lemma set_nextStartTime_same (st : LiveSession) :
  set_nextStartTime (nextStartTimeRef st) st = st.
Proof. destruct st; reflexivity. Qed.

(** A message of which nothing is scheduled (no payload, no output
    context, or a payload that cannot be decoded) either leaves the
    component as it is or only moves the playback cursor up to the clock;
    when the clock has not passed the cursor it leaves no trace at all. *)
Theorem unplayed_message :
  forall (st : LiveSession) (msg : LiveServerMessage) (t : Q),
    scheduled (snd (fst (onmessage st msg t))) = [] ->
    (fst (fst (onmessage st msg t)) = st
     \/ fst (fst (onmessage st msg t))
        = set_nextStartTime (Qmax (nextStartTimeRef st) t) st)
    /\ ((t <= nextStartTimeRef st)%Q -> fst (fst (onmessage st msg t)) = st).
Proof.
  intros st msg t.
  destruct (onmessage_handled st msg t)
    as [Hi | base64 e Hb Ht Hc Hd | base64 bytes buffer Hb Ht Hc Hd Ha];
    cbn [fst snd scheduled flat_map app]; intros Hs.
  - split; [left; reflexivity|reflexivity].
  - split; [right; reflexivity|].
    intros Hle. rewrite (Qmax_burst _ _ Hle). apply set_nextStartTime_same.
  - discriminate Hs.
Qed.

(** The theorem on a payload of one byte that arrives before the cursor
    is reached. *)
Lemma unplayed_message_witness :
  fst (fst (onmessage (set_nextStartTime 5 (startSession mounted))
              (audio_message "AA==") 3))
  = set_nextStartTime 5 (startSession mounted).
Proof.
  apply (proj2 (unplayed_message (set_nextStartTime 5 (startSession mounted))
                  (audio_message "AA==") 3 eq_refl)).
  vm_compute. discriminate.
Defined.

Lemma advanced_bound (chunks : list (LiveServerMessage * Q)) :
  forall (st : LiveSession) (c : Q),
    (c <= nextStartTimeRef st)%Q ->
    (advanced c (scheduled (snd (deliver st chunks)))
     <= nextStartTimeRef (fst (deliver st chunks)))%Q.
Proof.
  induction chunks as [|[msg t] rest IH]; intros st c Hc.
  - exact Hc.
  - rewrite deliver_cons. cbn [fst snd]. rewrite scheduled_app.
    destruct (onmessage_handled st msg t)
      as [Hi | base64 e Hb Ht Hx Hd | base64 bytes buffer Hb Ht Hx Hd Ha];
      cbn [fst snd scheduled flat_map app].
    + apply IH. exact Hc.
    + apply IH. cbn [nextStartTimeRef set_nextStartTime].
      pose proof (Qmax_ge_l (nextStartTimeRef st) t). lra.
    + unfold advanced. cbn [fold_left fst].
      apply (IH (set_nextStartTime
                   (Qmax (nextStartTimeRef st) t + duration buffer)%Q st)).
      cbn [nextStartTimeRef set_nextStartTime].
      pose proof (Qmax_ge_l (nextStartTimeRef st) t). lra.
Qed.

(** Whatever is delivered, the playback cursor ends no earlier than where
    it began advanced by the duration of each scheduled buffer in turn; in
    a burst (every message handled while the clock has not passed the
    cursor) it ends exactly there, the additions being those the handler
    made, in its order. *)
Theorem cursor_advances_by_each_duration :
  forall (st : LiveSession) (chunks : list (LiveServerMessage * Q)),
    (advanced (nextStartTimeRef st) (scheduled (snd (deliver st chunks)))
     <= nextStartTimeRef (fst (deliver st chunks)))%Q
    /\ (burst st chunks ->
        nextStartTimeRef (fst (deliver st chunks))
        = advanced (nextStartTimeRef st)
            (scheduled (snd (deliver st chunks)))).
Proof.
  intros st chunks. split; [apply advanced_bound, Qle_refl|].
  revert st. induction chunks as [|[msg t] rest IH]; intros st.
  - intros _. reflexivity.
  - rewrite deliver_cons. cbn [fst snd burst]. rewrite scheduled_app.
    destruct (onmessage_handled st msg t)
      as [Hi | base64 e Hb Ht Hx Hd | base64 bytes buffer Hb Ht Hx Hd Ha];
      cbn [fst snd scheduled flat_map app]; intros [Hle Hr].
    + apply IH. exact Hr.
    + rewrite (IH _ Hr). cbn [nextStartTimeRef set_nextStartTime].
      rewrite (Qmax_burst _ _ Hle). reflexivity.
    + rewrite (IH _ Hr). cbn [nextStartTimeRef set_nextStartTime].
      rewrite (Qmax_burst _ _ Hle). reflexivity.
Qed.

(** The theorem on a burst of two chunks, of two samples and of one, with
    the cursor at 5. *)
Lemma cursor_advances_witness :
  nextStartTimeRef
    (fst (deliver (set_nextStartTime 5 (startSession mounted))
            [(audio_message "AAAAAA==", 1%Q); (audio_message "AAA=", 2%Q)]))
  = advanced 5
      (scheduled
         (snd (deliver (set_nextStartTime 5 (startSession mounted))
                 [(audio_message "AAAAAA==", 1%Q);
                  (audio_message "AAA=", 2%Q)]))).
Proof.
  apply (proj2 (cursor_advances_by_each_duration
                  (set_nextStartTime 5 (startSession mounted))
                  [(audio_message "AAAAAA==", 1%Q); (audio_message "AAA=", 2%Q)])).
  vm_compute. repeat split; discriminate.
Defined.

(** ** Well-formed chunks *)

(** Every chunk whose payload is the text of a non-empty, even number of
    bytes is played, once and in the order of arrival, whatever the clock
    readings: the buffers scheduled are the decoded payloads, one per
    chunk, none dropped, repeated or reordered. *)
Theorem well_formed_chunks_all_played :
  forall (st : LiveSession) (chunks : list (Uint8Array * Q)),
    outputAudioContextRef st <> None ->
    Forall (fun c => well_formed (fst c)) chunks ->
    List.map fst
      (scheduled
         (snd (deliver st
                 (List.map (fun c => (audio_message (encode (fst c)), snd c))
                    chunks))))
    = List.map (fun c => decoded (fst c)) chunks.
Proof.
  intros st chunks. revert st.
  induction chunks as [|[pcm t] rest IH]; intros st Hc Hw; [reflexivity|].
  inversion_clear Hw as [|? ? [Hne Hev] Hrest]. cbn [List.map fst snd] in *.
  rewrite deliver_cons.
  rewrite (onmessage_audio st pcm t (decoded pcm) Hc Hne
             (decodeAudioData_even pcm Hne Hev)).
  cbn [fst snd]. rewrite scheduled_app. cbn [scheduled flat_map app List.map fst].
  f_equal. apply IH; [exact Hc|exact Hrest].
Qed.

(** The theorem on two chunks, the second arriving at an earlier clock
    reading than the first. *)
Lemma well_formed_chunks_witness :
  List.map fst
    (scheduled
       (snd (deliver (startSession mounted)
               (List.map (fun c => (audio_message (encode (fst c)), snd c))
                  [([x00; x80], 4%Q); ([xff; x7f; x01; x00], 1%Q)]))))
  = List.map (fun c => decoded (fst c))
      [([x00; x80], 4%Q); ([xff; x7f; x01; x00], 1%Q)].
Proof.
  apply (well_formed_chunks_all_played (startSession mounted)
           [([x00; x80], 4%Q); ([xff; x7f; x01; x00], 1%Q)]).
  - discriminate.
  - repeat constructor; discriminate.
Defined.

(** ** States reached in one run of the effect *)

Lemma run_cons (st : LiveSession) (ev : Event) (rest : list Event) :
  run st (ev :: rest)
  = (fst (run (fst (step st ev)) rest),
     snd (step st ev) ++ snd (run (fst (step st ev)) rest)).
Proof.
  cbn [run]. destruct (step st ev) as [st1 d1]. cbn [fst snd].
  destruct (run st1 rest). reflexivity.
Qed.

Lemma consistent_onmessage (st : LiveSession) (msg : LiveServerMessage) (t : Q) :
  consistent st -> consistent (fst (fst (onmessage st msg t))).
Proof.
  intros H. destruct (onmessage_handled st msg t); exact H.
Qed.

Lemma consistent_then_send (media : Blob) (st : LiveSession) :
  consistent st -> consistent (fst (then_send media st)).
Proof.
  unfold consistent, consistentb, then_send.
  destruct st as [s l ic oc c sr pr pm oa iv cl]. cbn.
  destruct pm; cbn; auto.
Qed.

Lemma consistent_step (st : LiveSession) (ev : Event) :
  ev <> Mount -> consistent st -> consistent (fst (step st ev)).
Proof.
  intros Hev H.
  destruct ev as [| |name| |reason| |msg t| |err|inputData|snapshot];
    cbn [step].
  - contradiction Hev. reflexivity.
  - revert H. by_fields st.
  - revert H. by_fields st.
  - revert H. by_fields st.
  - revert H. by_fields st.
  - revert H. by_fields st.
  - destruct (callbacks_registered st); [|exact H].
    apply consistent_onmessage. exact H.
  - revert H. by_fields st.
  - revert H. by_fields st.
  - destruct (onaudioprocess st); [|exact H].
    unfold scriptProcessor_onaudioprocess.
    pose proof (consistent_then_send (createBlob inputData) st H) as H'.
    destruct (then_send (createBlob inputData) st). exact H'.
  - destruct (interval st); [|exact H].
    destruct snapshot as [base64|]; [|exact H].
    apply consistent_then_send. exact H.
Qed.

Lemma consistent_run (evs : list Event) :
  one_run evs ->
  forall st, consistent st -> consistent (fst (run st evs)).
Proof.
  induction 1 as [|ev rest Hev _ IH]; intros st H; [exact H|].
  rewrite run_cons. cbn [fst]. apply IH, consistent_step; assumption.
Qed.

(** The first event of a run. *)
Lemma run_mount (later : list Event) :
  run mounted (Mount :: later)
  = (fst (run (startSession mounted) later),
     snd (run (startSession mounted) later)).
Proof. rewrite run_cons. reflexivity. Qed.

(** In one run of the effect, whatever events follow the mounting: the
    video timer runs exactly when the session promise has resolved, which
    is also when the session is stored; the script processor is wired only
    once the callbacks are registered; the callbacks are registered only
    with both audio contexts created, so that a message is never dropped
    for want of an output context; the status is CONNECTED or DISCONNECTED
    only once the callbacks are registered; and a component that has
    finished starting without registering them shows ERROR. *)
Theorem reachable_fields_fit :
  forall later : list Event,
    one_run later ->
    let st := fst (run mounted (Mount :: later)) in
    (interval st = true <-> sessionPromise st = Fulfilled)
    /\ sessionRef st = interval st
    /\ (onaudioprocess st = true -> callbacks_registered st = true)
    /\ (callbacks_registered st = true ->
        inputAudioContextRef st <> None /\ outputAudioContextRef st <> None)
    /\ (status st = connected \/ status st = disconnected ->
        callbacks_registered st = true)
    /\ (progress st = Finished -> callbacks_registered st = false ->
        status st = error).
Proof.
  intros later Hl st.
  assert (H : consistent st).
  { subst st. rewrite run_mount. cbn [fst].
    apply consistent_run; [exact Hl|reflexivity]. }
  clearbody st. revert H.
  unfold consistent, consistentb, callbacks_registered.
  destruct st as [s l ic oc c sr pr pm oa iv cl]. cbn.
  destruct pr, pm; cbn; try discriminate;
    destruct iv, sr; cbn; try discriminate;
    destruct cl; cbn; try discriminate;
    destruct oa; cbn; try discriminate;
    destruct ic, oc; cbn; try discriminate;
    destruct s; cbn; try discriminate;
    intros _; repeat split; intros; try discriminate; try reflexivity;
    try match goal with
        | H : _ \/ _ |- _ => destruct H; discriminate
        end.
Qed.

(** The theorem after a session has opened and a message has come: the
    callbacks are registered, so both audio contexts exist. *)
Lemma reachable_fields_fit_witness :
  inputAudioContextRef
    (fst (run mounted [Mount; MediaGranted; Open; Message (mkMessage None) 1]))
  <> None
  /\ outputAudioContextRef
       (fst (run mounted [Mount; MediaGranted; Open; Message (mkMessage None) 1]))
     <> None.
Proof.
  apply (reachable_fields_fit [MediaGranted; Open; Message (mkMessage None) 1]).
  - repeat constructor; discriminate.
  - reflexivity.
Defined.

(** ** The order of what is sent *)

Lemma sent_app (d1 d2 : list Action) : sent (d1 ++ d2) = sent d1 ++ sent d2.
Proof. apply flat_map_app. Qed.

Lemma sent_map_send (l : list Blob) : sent (List.map sendRealtimeInput l) = l.
Proof.
  induction l as [|m l IH]; [reflexivity|].
  cbn [List.map sent flat_map app]. fold (sent (List.map sendRealtimeInput l)).
  rewrite IH. reflexivity.
Qed.

Lemma then_send_account (media : Blob) (st : LiveSession) :
  sessionPromise st <> NotCreated ->
  sessionPromise st <> Rejected ->
  sent (snd (then_send media st)) ++ waiting_media (fst (then_send media st))
  = waiting_media st ++ [media]
  /\ sessionPromise (fst (then_send media st)) <> Rejected.
Proof.
  intros H1 H2. unfold then_send, waiting_media.
  destruct (sessionPromise st) eqn:E; try contradiction; cbn; rewrite ?E;
    split; try reflexivity; try discriminate.
Qed.

Lemma onmessage_uplink (st : LiveSession) (msg : LiveServerMessage) (t : Q) :
  sessionPromise (fst (fst (onmessage st msg t))) = sessionPromise st
  /\ onaudioprocess (fst (fst (onmessage st msg t))) = onaudioprocess st
  /\ interval (fst (fst (onmessage st msg t))) = interval st
  /\ sent (snd (fst (onmessage st msg t))) = [].
Proof.
  destruct (onmessage_handled st msg t); repeat split.
Qed.

(** One event: what is sent and what waits afterwards is what waited
    before and what the event captured. *)
Lemma step_account (st : LiveSession) (ev : Event) :
  ev <> Mount ->
  consistent st ->
  sessionPromise (fst (step st ev)) <> Rejected ->
  sent (snd (step st ev)) ++ waiting_media (fst (step st ev))
  = waiting_media st ++ captured_by st ev.
Proof.
  intros Hev H.
  destruct ev as [| |name| |reason| |msg t| |err|inputData|snapshot];
    cbn [step captured_by].
  - contradiction Hev. reflexivity.
  - revert H. unfold consistent, consistentb, waiting_media.
    destruct st as [s l ic oc c sr pr pm oa iv cl]. cbn.
    destruct pr; cbn; intros H _; rewrite ?app_nil_r; try reflexivity.
    destruct pm; try discriminate H. reflexivity.
  - intros _. unfold waiting_media.
    destruct (progress st); cbn; rewrite ?app_nil_r; reflexivity.
  - revert H. unfold consistent, consistentb, waiting_media.
    destruct st as [s l ic oc c sr pr pm oa iv cl]. cbn.
    destruct pr; cbn; intros H _; rewrite ?app_nil_r; try reflexivity.
    destruct pm; try discriminate H. cbn. apply sent_map_send.
  - unfold waiting_media.
    destruct (progress st); cbn; rewrite ?app_nil_r; intros Hr;
      try reflexivity.
    contradiction Hr. reflexivity.
  - intros _. unfold waiting_media.
    destruct (callbacks_registered st); cbn; rewrite ?app_nil_r; reflexivity.
  - intros _. unfold waiting_media. rewrite app_nil_r.
    destruct (callbacks_registered st); [|reflexivity].
    destruct (onmessage_uplink st msg t) as (E1 & _ & _ & E2).
    rewrite E1, E2. reflexivity.
  - intros _. unfold waiting_media.
    destruct (callbacks_registered st); cbn; rewrite ?app_nil_r; reflexivity.
  - intros _. unfold waiting_media.
    destruct (callbacks_registered st); cbn; rewrite ?app_nil_r; reflexivity.
  - destruct (onaudioprocess st) eqn:Eo; [|intros _; cbn; rewrite app_nil_r; reflexivity].
    unfold scriptProcessor_onaudioprocess. intros Hr.
    assert (H1 : sessionPromise st <> NotCreated).
    { revert H Eo. unfold consistent, consistentb, callbacks_registered.
      destruct st as [s l ic oc c sr pr pm oa iv cl]. cbn. intros H ->.
      destruct pm; try discriminate.
      exfalso. destruct pr, iv, sr, cl, ic, oc, s; discriminate H. }
    assert (H2 : sessionPromise st <> Rejected).
    { intros E. apply Hr. unfold then_send. rewrite E. cbn. exact E. }
    destruct (then_send_account (createBlob inputData) st H1 H2) as [A _].
    destruct (then_send (createBlob inputData) st) as [st1 d1].
    cbn [fst snd] in *.
    change (sent (drawVisualizer inputData :: d1)) with (sent d1). exact A.
  - destruct snapshot as [base64|];
      [|intros _; destruct (interval st); cbn; rewrite app_nil_r; reflexivity].
    destruct (interval st) eqn:Ei;
      [|intros _; cbn; rewrite app_nil_r; reflexivity].
    cbn [interval_callback]. intros Hr.
    assert (H1 : sessionPromise st = Fulfilled).
    { revert H Ei. unfold consistent, consistentb.
      destruct st as [s l ic oc c sr pr pm oa iv cl]. cbn. intros H ->.
      destruct pm; try reflexivity; exfalso;
        destruct pr, sr, oa, cl, ic, oc, s; discriminate H. }
    apply then_send_account; rewrite H1; discriminate.
Qed.

Lemma then_send_promise (media : Blob) (st : LiveSession) :
  (sessionPromise st = Fulfilled ->
   sessionPromise (fst (then_send media st)) = Fulfilled)
  /\ (sessionPromise st = Rejected ->
      sessionPromise (fst (then_send media st)) = Rejected)
  /\ (sessionPromise (fst (then_send media st)) <> Fulfilled ->
      sent (snd (then_send media st)) = []).
Proof.
  unfold then_send. destruct (sessionPromise st) eqn:E; cbn; rewrite ?E;
    repeat split; intros; try discriminate; try reflexivity; try contradiction.
Qed.

(** A settled session promise stays as it is, and nothing is sent by an
    event that does not leave it resolved. *)
Lemma step_promise (st : LiveSession) (ev : Event) :
  ev <> Mount ->
  consistent st ->
  (sessionPromise st = Fulfilled ->
   sessionPromise (fst (step st ev)) = Fulfilled)
  /\ (sessionPromise st = Rejected ->
      sessionPromise (fst (step st ev)) = Rejected)
  /\ (sessionPromise (fst (step st ev)) <> Fulfilled ->
      sent (snd (step st ev)) = []).
Proof.
  intros Hev H.
  destruct ev as [| |name| |reason| |msg t| |err|inputData|snapshot];
    cbn [step].
  - contradiction Hev. reflexivity.
  - revert H. unfold consistent, consistentb.
    destruct st as [s l ic oc c sr pr pm oa iv cl]. cbn.
    destruct pr; cbn; intros H; repeat split; auto;
      intros E; subst pm; discriminate H.
  - revert H. unfold consistent, consistentb.
    destruct st as [s l ic oc c sr pr pm oa iv cl]. cbn.
    destruct pr; cbn; intros H; repeat split; auto.
  - revert H. unfold consistent, consistentb.
    destruct st as [s l ic oc c sr pr pm oa iv cl]. cbn.
    destruct pr; cbn; intros H; repeat split; auto;
      try (intros E; subst pm; discriminate H).
    intros E. contradiction E. reflexivity.
  - revert H. unfold consistent, consistentb.
    destruct st as [s l ic oc c sr pr pm oa iv cl]. cbn.
    destruct pr; cbn; intros H; repeat split; auto;
      intros E; subst pm; discriminate H.
  - destruct (callbacks_registered st); repeat split; auto.
  - destruct (callbacks_registered st); [|repeat split; auto].
    destruct (onmessage_uplink st msg t) as (E1 & _ & _ & E2).
    rewrite E1. repeat split; auto.
  - destruct (callbacks_registered st); repeat split; auto.
  - destruct (callbacks_registered st); repeat split; auto.
  - destruct (onaudioprocess st); [|repeat split; auto].
    unfold scriptProcessor_onaudioprocess.
    destruct (then_send_promise (createBlob inputData) st) as (A & B & C).
    destruct (then_send (createBlob inputData) st) as [st1 d1].
    cbn [fst snd] in *. repeat split; auto.
  - destruct (interval st); [|repeat split; auto].
    destruct snapshot as [base64|]; [|repeat split; auto].
    apply then_send_promise.
Qed.

Lemma run_promise (evs : list Event) :
  one_run evs ->
  forall st,
    consistent st ->
    (sessionPromise st = Fulfilled ->
     sessionPromise (fst (run st evs)) = Fulfilled)
    /\ (sessionPromise st = Rejected ->
        sessionPromise (fst (run st evs)) = Rejected)
    /\ (sessionPromise (fst (run st evs)) <> Fulfilled ->
        sent (snd (run st evs)) = []).
Proof.
  induction 1 as [|ev rest Hev _ IH]; intros st H.
  - repeat split; auto.
  - rewrite run_cons. cbn [fst snd].
    destruct (step_promise st ev Hev H) as (A & B & C).
    destruct (IH _ (consistent_step st ev Hev H)) as (A' & B' & C').
    repeat split; auto.
    intros E. rewrite sent_app, (C' E).
    rewrite C; [reflexivity|]. intros F. apply E, A', F.
Qed.

Lemma run_account (evs : list Event) :
  one_run evs ->
  forall st,
    consistent st ->
    sessionPromise (fst (run st evs)) <> Rejected ->
    sent (snd (run st evs)) ++ waiting_media (fst (run st evs))
    = waiting_media st ++ captured st evs.
Proof.
  induction 1 as [|ev rest Hev Hrest IH]; intros st H Hr.
  - cbn. rewrite app_nil_r. reflexivity.
  - rewrite run_cons in Hr |- *. cbn [fst snd captured] in *.
    pose proof (consistent_step st ev Hev H) as H1.
    assert (Hr1 : sessionPromise (fst (step st ev)) <> Rejected).
    { intros E. apply Hr. apply (run_promise rest Hrest _ H1). exact E. }
    rewrite sent_app, <- app_assoc, (IH _ H1 Hr).
    rewrite !app_assoc. f_equal. apply step_account; assumption.
Qed.

(** In one run of the effect: until the session promise has resolved
    nothing is sent, and never if it is rejected; while it is pending the
    audio blobs and the snapshots captured since the component was mounted
    wait in the order of their capture; once it has resolved, what has been
    sent is what has been captured since the mount, in that same order:
    nothing is lost, sent twice or out of order. *)
Theorem uplink_keeps_capture_order :
  forall later : list Event,
    one_run later ->
    let evs := Mount :: later in
    match sessionPromise (fst (run mounted evs)) with
    | Fulfilled => sent (snd (run mounted evs)) = captured mounted evs
    | Pending waiting =>
        sent (snd (run mounted evs)) = []
        /\ waiting = captured mounted evs
    | NotCreated =>
        sent (snd (run mounted evs)) = [] /\ captured mounted evs = []
    | Rejected => sent (snd (run mounted evs)) = []
    end.
Proof.
  intros later Hl evs. subst evs. rewrite run_mount. cbn [fst snd].
  change (captured mounted (Mount :: later))
    with (captured (startSession mounted) later).
  assert (H : consistent (startSession mounted)) by reflexivity.
  destruct (run_promise later Hl _ H) as (_ & _ & C).
  pose proof (run_account later Hl _ H) as A.
  unfold waiting_media in A.
  cbn [sessionPromise startSession mounted app] in A.
  destruct (sessionPromise (fst (run (startSession mounted) later))) eqn:E.
  - rewrite C in A by discriminate. split; [apply C; discriminate|].
    symmetry. apply A. discriminate.
  - rewrite C in A by discriminate. split; [apply C; discriminate|].
    apply A. discriminate.
  - rewrite app_nil_r in A. apply A. discriminate.
  - apply C. discriminate.
Qed.

(** The theorem on a run in which an audio block is captured before the
    session promise resolves, and a block and a snapshot after. *)
Lemma uplink_keeps_capture_order_witness :
  sent (snd (run mounted
               [Mount; MediaGranted; Open; AudioProcess [0%Q]; SessionResolved;
                AudioProcess [1 # 2]%Q; Tick (Some "AAAA"%string)]))
  = captured mounted
      [Mount; MediaGranted; Open; AudioProcess [0%Q]; SessionResolved;
       AudioProcess [1 # 2]%Q; Tick (Some "AAAA"%string)].
Proof.
  apply (uplink_keeps_capture_order
           [MediaGranted; Open; AudioProcess [0%Q]; SessionResolved;
            AudioProcess [1 # 2]%Q; Tick (Some "AAAA"%string)]).
  repeat constructor; discriminate.
Defined.

(** ** The two directions do not disturb each other *)

Lemma then_send_downlink (media : Blob) (st : LiveSession) :
  nextStartTimeRef (fst (then_send media st)) = nextStartTimeRef st
  /\ scheduled (snd (then_send media st)) = [].
Proof.
  unfold then_send. destruct (sessionPromise st); split; reflexivity.
Qed.

(** No event other than a message moves the playback cursor or schedules a
    buffer, and a message sends nothing, queues nothing, and leaves the
    status, the script processor and the timer as they are. *)
Theorem uplink_and_downlink_separate :
  (forall (st : LiveSession) (ev : Event),
     (forall msg t, ev <> Message msg t) ->
     nextStartTimeRef (fst (step st ev)) = nextStartTimeRef st
     /\ scheduled (snd (step st ev)) = [])
  /\ (forall (st : LiveSession) (msg : LiveServerMessage) (t : Q),
        sent (snd (step st (Message msg t))) = []
        /\ sessionPromise (fst (step st (Message msg t))) = sessionPromise st
        /\ status (fst (step st (Message msg t))) = status st
        /\ onaudioprocess (fst (step st (Message msg t))) = onaudioprocess st
        /\ interval (fst (step st (Message msg t))) = interval st).
Proof.
  split.
  - intros st ev Hev.
    destruct ev as [| |name| |reason| |msg t| |err|inputData|snapshot];
      cbn [step].
    + destruct (progress st); split; reflexivity.
    + destruct (progress st); split; reflexivity.
    + destruct (progress st); split; reflexivity.
    + destruct (progress st); cbn; split; try reflexivity.
      destruct (sessionPromise st) as [|w| |]; try reflexivity.
      induction w as [|m w IH]; [reflexivity|exact IH].
    + destruct (progress st); split; reflexivity.
    + destruct (callbacks_registered st); split; reflexivity.
    + contradiction (Hev msg t). reflexivity.
    + destruct (callbacks_registered st); split; reflexivity.
    + destruct (callbacks_registered st); split; reflexivity.
    + destruct (onaudioprocess st); [|split; reflexivity].
      unfold scriptProcessor_onaudioprocess.
      destruct (then_send_downlink (createBlob inputData) st) as [A B].
      destruct (then_send (createBlob inputData) st) as [st1 d1].
      cbn [fst snd] in *. split; [exact A|].
      change (scheduled (drawVisualizer inputData :: d1)) with (scheduled d1).
      exact B.
    + destruct (interval st); [|split; reflexivity].
      destruct snapshot as [base64|]; [|split; reflexivity].
      apply then_send_downlink.
  - intros st msg t. cbn [step].
    destruct (callbacks_registered st); [|repeat split].
    destruct (onmessage_uplink st msg t) as (E1 & E2 & E3 & E4).
    repeat split; auto. apply status_onmessage.
Qed.

(** The theorem on an audio block captured after the session has opened
    and resolved, with the cursor at 5. *)
Lemma uplink_and_downlink_separate_witness :
  let st := set_nextStartTime 5
              (fst (run mounted [Mount; MediaGranted; Open; SessionResolved])) in
  nextStartTimeRef (fst (step st (AudioProcess [1 # 2]%Q))) = nextStartTimeRef st
  /\ scheduled (snd (step st (AudioProcess [1 # 2]%Q))) = [].
Proof.
  intros st.
  apply (proj1 uplink_and_downlink_separate st (AudioProcess [1 # 2]%Q)).
  intros msg t. discriminate.
Defined.

(** The handler of messages never looks at the status: a message that
    arrives after an error or a close callback is decoded and scheduled
    exactly as it would be while connected, and leaves the status as it
    found it. *)
Theorem message_handled_in_any_status :
  forall (st : LiveSession) (s : Status) (msg : LiveServerMessage) (t : Q),
    step (setStatus s st) (Message msg t)
    = (setStatus s (fst (step st (Message msg t))),
       snd (step st (Message msg t))).
Proof.
  intros st s msg t. cbn [step].
  change (callbacks_registered (setStatus s st)) with (callbacks_registered st).
  destruct (callbacks_registered st); [|reflexivity].
  unfold onmessage.
  change (outputAudioContextRef (setStatus s st))
    with (outputAudioContextRef st).
  destruct (base64Audio msg) as [base64|]; [|reflexivity].
  destruct (outputAudioContextRef st); [|reflexivity].
  destruct (truthy base64); [|reflexivity].
  destruct (let* bytes := decode base64 in decodeAudioData bytes);
    reflexivity.
Qed.

(** ** The line of the visualizer *)

Lemma turns_step (n i : nat) :
  i < n -> Visualizer.turns n i = S (Visualizer.turns n (i + 10)).
Proof. unfold Visualizer.turns. intros H. lia. Qed.

Lemma turns_done (n i : nat) : n <= i -> Visualizer.turns n i = 0.
Proof. unfold Visualizer.turns. intros H. lia. Qed.

Lemma turns_le (n i : nat) : Visualizer.turns n i <= n - i.
Proof. unfold Visualizer.turns. lia. Qed.

(** With enough turns allowed, the loop stops by its own test, after
    [turns] turns, and its [k]-th turn draws the sample of index
    [i + 10 k] at the abscissa advanced [k] times. *)
Lemma plot_turns (data : Float32Array) (h sw : Q) :
  forall fuel i x,
    Visualizer.turns (List.length data) i <= fuel ->
    List.length (Visualizer.plot fuel data h sw i x)
    = Visualizer.turns (List.length data) i
    /\ forall k,
         k < Visualizer.turns (List.length data) i ->
         nth_error (Visualizer.plot fuel data h sw i x) k
         = Some ((if Nat.eqb (i + 10 * k) 0
                  then Visualizer.moveTo else Visualizer.lineTo)
                   (Nat.iter k (fun x => x + sw * 10)%Q x)
                   (Visualizer.ordinate data h (i + 10 * k))).
Proof.
  induction fuel as [|fuel IH]; intros i x Hf.
  - cbn [Visualizer.plot List.length]. split; [lia|]. intros k Hk. lia.
  - cbn [Visualizer.plot].
    destruct (Nat.ltb_spec i (List.length data)) as [Hlt|Hge].
    + rewrite (turns_step _ _ Hlt) in Hf |- *.
      destruct (IH (i + 10) (x + sw * 10)%Q ltac:(lia)) as [L N].
      cbn [List.length]. split; [rewrite L; reflexivity|].
      intros [|k] Hk.
      * cbn [nth_error Nat.iter]. rewrite Nat.mul_0_r, Nat.add_0_r.
        destruct (Nat.eqb i 0); reflexivity.
      * cbn [nth_error]. rewrite (N k ltac:(lia)).
        rewrite Nat.iter_succ_r.
        replace (i + 10 + 10 * k) with (i + 10 * S k) by lia.
        replace (Nat.eqb (i + 10 * S k) 0) with false
          by (symmetry; apply Nat.eqb_neq; lia).
        destruct (Nat.eqb (i + 10 * S k) 0); reflexivity.
    + rewrite (turns_done _ _ Hge). split; [reflexivity|]. intros k Hk. lia.
Qed.

Lemma iter_add (d : Q) (k : nat) :
  (Nat.iter k (fun x => x + d) 0 == inject_Z (Z.of_nat k) * d)%Q.
Proof.
  induction k as [|k IH].
  - change (0 == 0 * d)%Q. ring.
  - rewrite Nat.iter_succ, IH, Nat2Z.inj_succ. unfold Z.succ.
    rewrite inject_Z_plus. change (inject_Z 1) with 1%Q. ring.
Qed.

Lemma points_plot (data : Float32Array) (h sw : Q) (fuel i : nat) (x : Q) :
  forall k,
    nth_error (Visualizer.points (Visualizer.plot fuel data h sw i x)) k
    = option_map
        (fun d => match d with
                  | Visualizer.moveTo x y | Visualizer.lineTo x y => (x, y)
                  | _ => (0, 0)%Q
                  end)
        (nth_error (Visualizer.plot fuel data h sw i x) k).
Proof.
  revert i x. induction fuel as [|fuel IH]; intros i x k.
  - destruct k; reflexivity.
  - cbn [Visualizer.plot].
    destruct (Nat.ltb i (List.length data)); [|destruct k; reflexivity].
    destruct k as [|k].
    + destruct (Nat.eqb i 0); reflexivity.
    + transitivity
        (nth_error
           (Visualizer.points
              (Visualizer.plot fuel data h sw (i + 10) (x + sw * 10)%Q)) k).
      * destruct (Nat.eqb i 0); reflexivity.
      * rewrite IH. reflexivity.
Qed.

Lemma length_points_plot (data : Float32Array) (h sw : Q) (fuel i : nat) (x : Q) :
  List.length (Visualizer.points (Visualizer.plot fuel data h sw i x))
  = List.length (Visualizer.plot fuel data h sw i x).
Proof.
  revert i x. induction fuel as [|fuel IH]; intros i x; [reflexivity|].
  cbn [Visualizer.plot].
  destruct (Nat.ltb i (List.length data)); [|reflexivity].
  transitivity
    (S (List.length
          (Visualizer.points
             (Visualizer.plot fuel data h sw (i + 10) (x + sw * 10)%Q)))).
  - destruct (Nat.eqb i 0); reflexivity.
  - rewrite IH. reflexivity.
Qed.

Lemma points_drawVisualizer (canvas : Visualizer.Canvas) (data : Float32Array) :
  Visualizer.context2d canvas = true ->
  Visualizer.points (Visualizer.drawVisualizer (Some canvas) data)
  = Visualizer.points
      (Visualizer.plot (List.length data) data
         (inject_Z (Visualizer.height canvas))
         (inject_Z (Visualizer.width canvas)
          / inject_Z (Z.of_nat (List.length data)))%Q
         0 0%Q).
Proof.
  intros Hc. unfold Visualizer.drawVisualizer. rewrite Hc.
  unfold Visualizer.points. rewrite !flat_map_app. cbn [flat_map app].
  rewrite app_nil_r. reflexivity.
Qed.

Lemma nth_error_header_plot (canvas : Visualizer.Canvas) (data : Float32Array)
    (k : nat) :
  Visualizer.context2d canvas = true ->
  nth_error (Visualizer.drawVisualizer (Some canvas) data) (4 + k)
  = nth_error
      (Visualizer.plot (List.length data) data
         (inject_Z (Visualizer.height canvas))
         (inject_Z (Visualizer.width canvas)
          / inject_Z (Z.of_nat (List.length data)))%Q
         0 0%Q
       ++ [Visualizer.stroke]) k.
Proof.
  intros Hc. unfold Visualizer.drawVisualizer. rewrite Hc. reflexivity.
Qed.

Lemma abscissa_eq (w : Q) (n k : nat) :
  (Nat.iter k (fun x => x + w / inject_Z (Z.of_nat n) * 10) 0
   == inject_Z (Z.of_nat (10 * k)) * w / inject_Z (Z.of_nat n))%Q.
Proof.
  rewrite iter_add, Nat2Z.inj_mul, inject_Z_mult.
  change (inject_Z (Z.of_nat 10)) with 10%Q.
  unfold Qdiv. ring.
Qed.

(** With a canvas and its context, [drawVisualizer] clears the canvas and
    strokes one line through every tenth sample: for [n] samples it joins
    [ceil (n / 10)] points, the first by [moveTo] and the others by
    [lineTo]; the [k]-th point stands for the sample of index [10 k], at the
    abscissa [10 k * width / n] and the ordinate
    [height / 2 + sample * 5 * height / 2].  Without a canvas, or without
    its context, nothing is drawn. *)
Theorem visualizer_line :
  (forall (canvas : Visualizer.Canvas) (data : Float32Array),
     Visualizer.context2d canvas = true ->
     let n := List.length data in
     let w := inject_Z (Visualizer.width canvas) in
     let h := inject_Z (Visualizer.height canvas) in
     let drawing := Visualizer.drawVisualizer (Some canvas) data in
     firstn 4 drawing
     = [Visualizer.clearRect 0 0 w h; Visualizer.lineWidth 2;
        Visualizer.strokeStyle "#00ffcc"; Visualizer.beginPath]
     /\ List.length drawing = 5 + (n + 9) / 10
     /\ nth_error drawing (4 + (n + 9) / 10) = Some Visualizer.stroke
     /\ forall k,
          k < (n + 9) / 10 ->
          exists x,
            nth_error drawing (4 + k)
            = Some ((if Nat.eqb k 0
                     then Visualizer.moveTo else Visualizer.lineTo)
                      x (h / 2 + nth (10 * k) data 0 * 5 * h / 2)%Q)
            /\ (x == inject_Z (Z.of_nat (10 * k)) * w
                     / inject_Z (Z.of_nat n))%Q)
  /\ (forall data, Visualizer.drawVisualizer None data = [])
  /\ (forall canvas data,
        Visualizer.context2d canvas = false ->
        Visualizer.drawVisualizer (Some canvas) data = []).
Proof.
  split; [|split].
  - intros canvas data Hc n w h drawing.
    destruct (plot_turns data h (w / inject_Z (Z.of_nat n))%Q n 0 0%Q)
      as [L N].
    { apply Nat.le_trans with (n - 0); [apply turns_le|lia]. }
    unfold Visualizer.turns in L, N. rewrite Nat.sub_0_r in L, N.
    fold n in L, N.
    split; [|split; [|split]].
    + subst drawing. unfold Visualizer.drawVisualizer. rewrite Hc. reflexivity.
    + subst drawing. unfold Visualizer.drawVisualizer. rewrite Hc.
      fold n w h. rewrite !length_app. cbn [List.length]. rewrite L. lia.
    + subst drawing. rewrite (nth_error_header_plot canvas data _ Hc).
      fold n w h. rewrite nth_error_app2 by (rewrite L; lia).
      rewrite L, Nat.sub_diag. reflexivity.
    + intros k Hk. subst drawing.
      rewrite (nth_error_header_plot canvas data _ Hc). fold n w h.
      rewrite nth_error_app1 by (rewrite L; exact Hk).
      rewrite (N k Hk). cbn [Nat.add].
      exists (Nat.iter k (fun x => x + w / inject_Z (Z.of_nat n) * 10)%Q 0%Q).
      split.
      * replace (Nat.eqb (10 * k) 0) with (Nat.eqb k 0); [reflexivity|].
        destruct k; reflexivity.
      * apply abscissa_eq.
  - reflexivity.
  - intros canvas data Hc. unfold Visualizer.drawVisualizer. rewrite Hc.
    reflexivity.
Qed.

(** The theorem on the canvas of the component and a block of 25
    samples. *)
Lemma visualizer_line_witness :
  List.length
    (Visualizer.drawVisualizer (Some (Visualizer.mkCanvas 800 128 true))
       (repeat (1 # 10)%Q 25))
  = 5 + (List.length (repeat (1 # 10)%Q 25) + 9) / 10.
Proof.
  apply (proj1 visualizer_line (Visualizer.mkCanvas 800 128 true)
           (repeat (1 # 10)%Q 25) eq_refl).
Defined.

Lemma inject_Z_nat_lt (a b : nat) :
  a < b -> (inject_Z (Z.of_nat a) < inject_Z (Z.of_nat b))%Q.
Proof. intros H. rewrite <- Zlt_Qlt. lia. Qed.

Lemma ordinate_bounds (h s : Q) :
  (0 <= h)%Q ->
  ((-(1 # 5) <= s -> s <= 1 # 5 ->
    0 <= h / 2 + s * 5 * h / 2 /\ h / 2 + s * 5 * h / 2 <= h)
   /\ (0 < h -> 1 # 5 < s -> h < h / 2 + s * 5 * h / 2)
   /\ (0 < h -> s < -(1 # 5) -> h / 2 + s * 5 * h / 2 < 0))%Q.
Proof.
  intros Hh. unfold Qdiv. change (/ 2)%Q with (1 # 2)%Q.
  repeat split; intros; nra.
Qed.

(** On a canvas of positive width, every point of the line lies at an
    abscissa in [0, width); its ordinate is inside the canvas when the
    sample it stands for is within 1/5 of zero, and outside when the sample
    is larger: the amplification by 5 is not clamped. *)
Theorem visualizer_bounds :
  forall (canvas : Visualizer.Canvas) (data : Float32Array) (k : nat),
    Visualizer.context2d canvas = true ->
    (0 < Visualizer.width canvas)%Z ->
    (0 <= Visualizer.height canvas)%Z ->
    k < (List.length data + 9) / 10 ->
    let w := inject_Z (Visualizer.width canvas) in
    let h := inject_Z (Visualizer.height canvas) in
    let s := nth (10 * k) data 0%Q in
    exists x y,
      nth_error
        (Visualizer.points (Visualizer.drawVisualizer (Some canvas) data)) k
      = Some (x, y)
      /\ (0 <= x /\ x < w)%Q
      /\ (-(1 # 5) <= s -> s <= 1 # 5 -> 0 <= y /\ y <= h)%Q
      /\ (0 < h -> 1 # 5 < s -> h < y)%Q
      /\ (0 < h -> s < -(1 # 5) -> y < 0)%Q.
Proof.
  intros canvas data k Hc Hw Hh Hk w h s.
  set (n := List.length data) in *.
  destruct (plot_turns data h (w / inject_Z (Z.of_nat n))%Q n 0 0%Q) as [L N].
  { apply Nat.le_trans with (n - 0); [apply turns_le|lia]. }
  unfold Visualizer.turns in L, N. rewrite Nat.sub_0_r in L, N. fold n in L, N.
  rewrite (points_drawVisualizer canvas data Hc). fold n w h.
  rewrite points_plot, (N k Hk). cbn [Nat.add option_map].
  exists (Nat.iter k (fun x => x + w / inject_Z (Z.of_nat n) * 10)%Q 0%Q),
    (h / 2 + s * 5 * h / 2)%Q.
  split; [destruct (Nat.eqb (10 * k) 0); reflexivity|].
  assert (Hw' : (0 < w)%Q).
  { subst w. change 0%Q with (inject_Z 0). rewrite <- Zlt_Qlt. exact Hw. }
  assert (Hh' : (0 <= h)%Q).
  { subst h. change 0%Q with (inject_Z 0). rewrite <- Zle_Qle. exact Hh. }
  assert (Hn : (0 < inject_Z (Z.of_nat n))%Q).
  { change 0%Q with (inject_Z (Z.of_nat 0)). apply inject_Z_nat_lt. lia. }
  assert (Hk0 : (0 <= inject_Z (Z.of_nat (10 * k)))%Q).
  { change 0%Q with (inject_Z 0). rewrite <- Zle_Qle. lia. }
  assert (Hkn : (inject_Z (Z.of_nat (10 * k)) < inject_Z (Z.of_nat n))%Q)
    by (apply inject_Z_nat_lt; lia).
  split.
  - rewrite abscissa_eq. split.
    + apply Qle_shift_div_l; [exact Hn|]. nra.
    + apply Qlt_shift_div_r; [exact Hn|]. nra.
  - apply ordinate_bounds. exact Hh'.
Qed.

(** The theorem on the second point of a block of 25 samples of 1/10. *)
Lemma visualizer_bounds_witness :
  exists x y,
    nth_error
      (Visualizer.points
         (Visualizer.drawVisualizer (Some (Visualizer.mkCanvas 800 128 true))
            (repeat (1 # 10)%Q 25))) 1
    = Some (x, y)
    /\ (0 <= x /\ x < 800)%Q
    /\ (-(1 # 5) <= 1 # 10 -> 1 # 10 <= 1 # 5 -> 0 <= y /\ y <= 128)%Q
    /\ (0 < 128 -> 1 # 5 < 1 # 10 -> 128 < y)%Q
    /\ (0 < 128 -> 1 # 10 < -(1 # 5) -> y < 0)%Q.
Proof.
  apply (visualizer_bounds (Visualizer.mkCanvas 800 128 true)
           (repeat (1 # 10)%Q 25) 1); cbn; try reflexivity; lia.
Defined.

Lemma plot_tenth (data data' : Float32Array) (h sw : Q) :
  List.length data = List.length data' ->
  (forall k, nth (10 * k) data 0%Q = nth (10 * k) data' 0%Q) ->
  forall fuel j x,
    Visualizer.plot fuel data h sw (10 * j) x
    = Visualizer.plot fuel data' h sw (10 * j) x.
Proof.
  intros Hl Hs. induction fuel as [|fuel IH]; intros j x; [reflexivity|].
  cbn [Visualizer.plot]. rewrite <- Hl.
  destruct (Nat.ltb (10 * j) (List.length data)); [|reflexivity].
  unfold Visualizer.ordinate. rewrite (Hs j).
  replace (10 * j + 10) with (10 * S j) by lia.
  rewrite IH. reflexivity.
Qed.

(** Only every tenth sample is looked at: two blocks of the same length
    that agree on the samples of index 0, 10, 20, ... give the same
    drawing. *)
Theorem visualizer_every_tenth_sample :
  forall (ref : option Visualizer.Canvas) (data data' : Float32Array),
    List.length data = List.length data' ->
    (forall k, nth (10 * k) data 0%Q = nth (10 * k) data' 0%Q) ->
    Visualizer.drawVisualizer ref data = Visualizer.drawVisualizer ref data'.
Proof.
  intros ref data data' Hl Hs. unfold Visualizer.drawVisualizer.
  destruct ref as [canvas|]; [|reflexivity].
  destruct (Visualizer.context2d canvas); [|reflexivity].
  rewrite <- Hl.
  rewrite (plot_tenth data data' _ _ Hl Hs (List.length data) 0 0%Q).
  reflexivity.
Qed.

(** The theorem on two blocks of twelve samples that differ at index 3. *)
Lemma visualizer_every_tenth_sample_witness :
  Visualizer.drawVisualizer (Some (Visualizer.mkCanvas 800 128 true))
    (repeat 0%Q 12)
  = Visualizer.drawVisualizer (Some (Visualizer.mkCanvas 800 128 true))
      (repeat 0%Q 3 ++ [1 # 2]%Q ++ repeat 0%Q 8).
Proof.
  apply visualizer_every_tenth_sample; [reflexivity|].
  intros [|[|k]]; [reflexivity|reflexivity|].
  rewrite !nth_overflow by (cbn [List.length repeat app]; lia). reflexivity.
Defined.

(** ** Teardown *)

(** In one run of the effect, whatever events followed the mounting: if
    the session promise has resolved, [cleanup] has been replaced and the
    function the effect returns clears the timer, stops the tracks and
    closes both audio contexts; if it has not resolved (the capture or the
    connection is awaited, or has failed), [cleanup] is still the empty
    function and nothing is released, the capture granted by then
    included. *)
Theorem teardown_only_once_established :
  forall later : list Event,
    one_run later ->
    let st := fst (run mounted (Mount :: later)) in
    (sessionPromise st = Fulfilled ->
     cleanup st = cleanup_release
     /\ effect_cleanup st
        = [clearInterval; stop_tracks; close_input; close_output])
    /\ (sessionPromise st <> Fulfilled ->
        cleanup st = cleanup_empty /\ effect_cleanup st = []).
Proof.
  intros later Hl st.
  assert (H : consistent st).
  { subst st. rewrite run_mount. cbn [fst].
    apply consistent_run; [exact Hl|reflexivity]. }
  clearbody st. revert H. unfold consistent, consistentb, effect_cleanup.
  destruct st as [s l ic oc c sr pr pm oa iv cl]. cbn. intros H. split.
  - intros ->.
    destruct cl, pr, iv, sr, oa, ic, oc, s; try discriminate H;
      split; reflexivity.
  - intros E.
    destruct pm; try (contradiction E; reflexivity);
      destruct cl, pr, iv, sr, oa, ic, oc, s; try discriminate H;
      split; reflexivity.
Qed.

(** The theorem on a component torn down while the session promise is
    pending: the capture has been granted and an audio block waits. *)
Lemma teardown_witness :
  cleanup (fst (run mounted [Mount; MediaGranted; Open; AudioProcess [0%Q]]))
  = cleanup_empty
  /\ effect_cleanup
       (fst (run mounted [Mount; MediaGranted; Open; AudioProcess [0%Q]]))
     = [].
Proof.
  apply (teardown_only_once_established
           [MediaGranted; Open; AudioProcess [0%Q]]).
  - repeat constructor; discriminate.
  - vm_compute. discriminate.
Defined.

(** ** The payload of a data URL *)

Lemma list_ascii_append (s1 s2 : string) :
  list_ascii_of_string (s1 ++ s2)%string
  = list_ascii_of_string s1 ++ list_ascii_of_string s2.
Proof.
  induction s1 as [|c s1 IH]; simpl; [reflexivity|]. rewrite IH. reflexivity.
Qed.

Lemma split_list_whole (sep : ascii) (l : list ascii) :
  ~ In sep l -> split_list sep l = [l].
Proof.
  induction l as [|c r IH]; intros Hn; [reflexivity|].
  cbn [split_list].
  destruct (Ascii.eqb_spec c sep) as [->|_]; [contradiction Hn; left; reflexivity|].
  rewrite IH; [reflexivity|]. intros Hin. apply Hn. right. exact Hin.
Qed.

Lemma split_list_first (sep : ascii) (h l : list ascii) :
  ~ In sep h -> split_list sep (h ++ sep :: l) = h :: split_list sep l.
Proof.
  induction h as [|c r IH]; intros Hn; cbn [app split_list].
  - rewrite Ascii.eqb_refl. reflexivity.
  - destruct (Ascii.eqb_spec c sep) as [->|_];
      [contradiction Hn; left; reflexivity|].
    rewrite IH; [reflexivity|]. intros Hin. apply Hn. right. exact Hin.
Qed.

Lemma comma_not_base64 (c : ascii) : base64_char c -> c <> ","%char.
Proof.
  intros [H|H] E; rewrite E in H; [apply H; reflexivity|discriminate H].
Qed.

(** Taking the second piece of a data URL split at its commas: it is the
    base64 text of the bytes, which [decode] turns back into the bytes,
    whenever the header holds no comma; of a text [header,payload] it is
    the payload up to its first comma; of a text without comma it is
    undefined. *)
Theorem dataURL_payload_is_base64 :
  (forall (header : string) (bytes : Uint8Array),
     no_comma header ->
     dataURL_payload (dataURL header bytes) = Some (encode bytes)
     /\ decode (encode bytes) = Ok bytes)
  /\ (forall header payload rest : string,
        no_comma header -> no_comma payload ->
        dataURL_payload
          (header ++ String ","%char (payload ++ String ","%char rest))%string
        = Some payload)
  /\ (forall url : string, no_comma url -> dataURL_payload url = None).
Proof.
  split; [|split].
  - intros header bytes Hh. split; [|apply decode_encode].
    unfold dataURL_payload, dataURL, split.
    rewrite list_ascii_append. cbn [list_ascii_of_string].
    rewrite (split_list_first _ _ _ Hh).
    rewrite split_list_whole.
    + cbn [List.map nth_error]. rewrite string_of_list_ascii_of_string.
      reflexivity.
    + intros Hin. destruct (encode_shape bytes) as [_ Ha].
      rewrite Forall_forall in Ha.
      apply (comma_not_base64 _ (Ha _ Hin)). reflexivity.
  - intros header payload rest Hh Hp.
    unfold dataURL_payload, split.
    rewrite list_ascii_append. cbn [list_ascii_of_string].
    rewrite (split_list_first _ _ _ Hh).
    rewrite list_ascii_append. cbn [list_ascii_of_string].
    rewrite (split_list_first _ _ _ Hp).
    cbn [List.map nth_error]. rewrite string_of_list_ascii_of_string.
    reflexivity.
  - intros url Hu. unfold dataURL_payload, split.
    rewrite (split_list_whole _ _ Hu). reflexivity.
Qed.

(** The theorem on the data URL of three bytes of a JPEG. *)
Lemma dataURL_payload_witness :
  dataURL_payload (dataURL "data:image/jpeg;base64" [xff; xd8; xff])
  = Some (encode [xff; xd8; xff])
  /\ decode (encode [xff; xd8; xff]) = Ok [xff; xd8; xff].
Proof.
  apply (proj1 dataURL_payload_is_base64 "data:image/jpeg;base64"%string
           [xff; xd8; xff]).
  unfold no_comma. vm_compute. intuition discriminate.
Defined.
